(** * financial-pdf-parser: the server handlers over a relational store

    A shallow embedding of the tRPC handlers of [server/src/handlers] and of
    the two tables of [server/src/db/schema.ts], with the input schemas and
    the routes of the upload and of the search, and the computing parts of
    the client: the check of a file before its upload and the page buttons
    of the table of transactions.

    Conventions of the embedding.
    - A table with a [serial] primary key is a finite map from the key to
      the row; the sequence behind the key is a counter of the database.
      The counter does not run out: the 2^31 inserts that it takes to
      exhaust a [serial] are outside the embedding.
    - An [integer] or [serial] column holds the 32-bit integers ([int4])
      and the column [numeric(12, 2)] the amounts below 10^10
      ([numeric_12_2]): the engine turns down a statement that carries
      another value, as an id to look for or as a value to store.
    - Text is a string of bytes.  [ILIKE] folds the ASCII letters and takes
      a byte for a character, which is what the engine does on text within
      ASCII; the statements that say which rows a search term matches, and
      which it does not, are about such text ([ascii_only],
      [ascii_texts]).
    - The engine puts rows of equal sort key in an order of its own
      choice, anew for each query.  [orderBy] is one such choice; the
      statements about the order of an answer hold of every choice, or
      are about rows of distinct keys.
    - Timestamps are milliseconds since the epoch, in [Z].  [db_now] is the
      reading of the engine's clock that [defaultNow()] takes; how the
      clock moves from one statement to the next is outside the
      embedding.
    - A monetary amount is the number of hundredths it denotes, in [Z]: the
      column has scale 2, and [amount.toString()] / [parseFloat] carry the
      same value across the driver.  Amounts with a fraction of a
      hundredth, and floating-point rounding, are outside the embedding.
    - [console.error] and the 100 ms pause of the mock extractor have no
      effect on the store and are left out.
    - The handlers run one at a time: no two calls interleave.
    - The inputs are typed: a text where a number is due, or a number that
      is not integral, has no counterpart in the embedding. *)

From Stdlib Require Import Ascii String.
From stdpp Require Import gmap strings list fin_maps sorting pretty.

Local Open Scope string_scope.
Local Open Scope Z_scope.

(** ** Enumerations ([pgEnum], [z.enum]) *)

Inductive ProcessingStatus : Set := pending | processing | completed | failed.

Inductive TransactionType : Set := debit | credit | transfer | fee | other.

Inductive SortBy : Set :=
  | by_transaction_date | by_amount | by_description | by_vendor_name.

Inductive SortOrder : Set := sort_asc | sort_desc.

#[global] Instance ProcessingStatus_eq_dec : EqDecision ProcessingStatus.
Proof. solve_decision. Defined.

#[global] Instance TransactionType_eq_dec : EqDecision TransactionType.
Proof. solve_decision. Defined.

(** ** Rows and handler inputs ([server/src/schema.ts]) *)

Module Document.
Record t : Type := mk {
    id : Z;
    filename : string;
    original_name : string;
    file_size : Z;
    mime_type : string;
    upload_date : Z;
    processing_status : ProcessingStatus;
    error_message : option string
  }.
End Document.

Module Transaction.
Record t : Type := mk {
    id : Z;
    document_id : Z;
    transaction_date : Z;
    amount : Z;
    description : string;
    account_number : option string;
    vendor_name : option string;
    transaction_type : option TransactionType;
    created_at : Z
  }.
End Transaction.

(** [typeof documentsTable.$inferInsert]: the columns with a default are
    optional. *)
Module NewDocument.
Record t : Type := mk {
    filename : string;
    original_name : string;
    file_size : Z;
    mime_type : string;
    upload_date : option Z;
    processing_status : option ProcessingStatus;
    error_message : option string
  }.
End NewDocument.

Module NewTransaction.
Record t : Type := mk {
    document_id : Z;
    transaction_date : Z;
    amount : Z;
    description : string;
    account_number : option string;
    vendor_name : option string;
    transaction_type : option TransactionType
  }.
End NewTransaction.

Module UploadDocumentInput.
Record t : Type := mk {
    filename : string;
    original_name : string;
    file_size : Z;
    mime_type : string
  }.
End UploadDocumentInput.

(** An optional field is [None] when the key is absent ([undefined]); a
    nullable one carries [Some None] for an explicit [null]. *)
Module UpdateDocumentStatusInput.
Record t : Type := mk {
    id : Z;
    processing_status : ProcessingStatus;
    error_message : option (option string)
  }.
End UpdateDocumentStatusInput.

Module CreateTransactionInput.
Record t : Type := mk {
    document_id : Z;
    transaction_date : Z;
    amount : Z;
    description : string;
    account_number : option string;
    vendor_name : option string;
    transaction_type : option TransactionType
  }.
End CreateTransactionInput.

Module SearchTransactionsInput.
Record t : Type := mk {
    search_term : option string;
    date_from : option Z;
    date_to : option Z;
    min_amount : option Z;
    max_amount : option Z;
    account_number : option string;
    vendor_name : option string;
    transaction_type : option TransactionType;
    sort_by : SortBy;
    sort_order : SortOrder;
    page : Z;
    limit : Z
  }.
End SearchTransactionsInput.

Module PaginatedTransactions.
Record t : Type := mk {
    transactions : list Transaction.t;
    total_count : Z;
    page : Z;
    limit : Z;
    total_pages : Z
  }.
End PaginatedTransactions.

Module UpdateTransactionInput.
Record t : Type := mk {
    id : Z;
    transaction_date : option Z;
    amount : option Z;
    description : option string;
    account_number : option (option string);
    vendor_name : option (option string);
    transaction_type : option (option TransactionType)
  }.
End UpdateTransactionInput.

(** ** The store

    The two tables, the sequences behind their [serial] keys, and the
    reading of the engine's clock that [defaultNow()] takes during the
    call. *)

Record DB : Type := mkDB {
  documents : gmap Z Document.t;
  transactions : gmap Z Transaction.t;
  documents_id_seq : Z;
  transactions_id_seq : Z;
  db_now : Z
}.

(** What the engine turns a statement down for. *)
Inductive DbError : Set :=
  | unique_violation
  | foreign_key_violation
  | integer_out_of_range
  | numeric_field_overflow
  | like_pattern_ends_with_escape
  | negative_offset.

(** What a JavaScript [throw] carries: an [Error] of the handlers with its
    message, the [Error] that the driver raises when the engine turns a
    statement down, or any other value. *)
Inductive Thrown : Type :=
  | ErrorObj (message : string)
  | EngineError (error : DbError)
  | NonError.

Inductive Outcome (A : Type) : Type :=
  | Returned (a : A)
  | Threw (e : Thrown).
Arguments Returned {A} a.
Arguments Threw {A} e.

(** A run of a handler: how it ends, the store it leaves, and the store
    after each of its data-changing statements, oldest first. *)
Record Run (A : Type) : Type := mkRun {
  outcome : Outcome A;
  final : DB;
  writes : list DB
}.
Arguments mkRun {A} _ _ _.
Arguments outcome {A} _.
Arguments final {A} _.
Arguments writes {A} _.

Definition Handler (A : Type) : Type := DB → Run A.

Definition ret {A} (a : A) : Handler A := λ s, mkRun (Returned a) s [].

Definition throw {A} (e : Thrown) : Handler A := λ s, mkRun (Threw e) s [].

Definition bind {A B} (m : Handler A) (k : A → Handler B) : Handler B :=
  λ s,
    let r := m s in
    match outcome r with
    | Returned a =>
        let r' := k a (final r) in
        mkRun (outcome r') (final r') (writes r ++ writes r')
    | Threw e => mkRun (Threw e) (final r) (writes r)
    end.

(** [try { m } catch (error) { h error }] *)
Definition try_catch {A} (m : Handler A) (h : Thrown → Handler A) : Handler A :=
  λ s,
    let r := m s in
    match outcome r with
    | Returned a => r
    | Threw e =>
        let r' := h e (final r) in
        mkRun (outcome r') (final r') (writes r ++ writes r')
    end.

Notation "'let*' x ':=' m 'in' k" := (bind m (λ x, k))
  (at level 10, x name, m at level 100, k at level 200, only parsing).
Notation "'run*' m 'in' k" := (bind m (λ _, k))
  (at level 10, m at level 100, k at level 200, only parsing).

(** ** Strings *)

(** [haystack.includes(needle)] *)
Fixpoint includes (needle haystack : string) : bool :=
  String.prefix needle haystack ||
  match haystack with
  | EmptyString => false
  | String _ rest => includes needle rest
  end.

(** The decimal text of an integer, as a template literal prints an
    integral [number]. *)
Definition show (n : Z) : string := pretty n.

(** *** [ILIKE]

    The pattern language of [LIKE], letters compared without regard to
    case.  [%] stands for any run of characters, [_] for any one character,
    and a backslash takes the next character literally.  Case folding
    covers the ASCII letters and a character is a byte: the engine's
    [ILIKE] on text within ASCII. *)

(** The escape character of a pattern, the backslash. *)
Definition escape : ascii := "092"%char.

Inductive LikeToken : Set :=
  | any_string
  | any_char
  | literal (c : ascii).

(** [None]: the pattern ends in a lone escape character, which the engine
    rejects. *)
Fixpoint like_tokens (pattern : string) : option (list LikeToken) :=
  match pattern with
  | EmptyString => Some []
  | String c rest =>
      if Ascii.eqb c "%"%char then cons any_string <$> like_tokens rest
      else if Ascii.eqb c "_"%char then cons any_char <$> like_tokens rest
      else if Ascii.eqb c escape then
        match rest with
        | EmptyString => None
        | String c' rest' => cons (literal c') <$> like_tokens rest'
        end
      else cons (literal c) <$> like_tokens rest
  end.

Fixpoint like_match (tokens : list LikeToken) (s : string) : bool :=
  match tokens with
  | [] => match s with EmptyString => true | String _ _ => false end
  | any_string :: tokens' =>
      (fix skip (s : string) : bool :=
         like_match tokens' s ||
         match s with
         | EmptyString => false
         | String _ s' => skip s'
         end) s
  | any_char :: tokens' =>
      match s with
      | EmptyString => false
      | String _ s' => like_match tokens' s'
      end
  | literal c :: tokens' =>
      match s with
      | EmptyString => false
      | String c' s' => Ascii.eqb c c' && like_match tokens' s'
      end
  end.

Definition to_lower (c : ascii) : ascii :=
  let n := Ascii.N_of_ascii c in
  if ((65 <=? n) && (n <=? 90))%N then Ascii.ascii_of_N (n + 32) else c.

Fixpoint lower (s : string) : string :=
  match s with
  | EmptyString => EmptyString
  | String c rest => String (to_lower c) (lower rest)
  end.

Definition ilike (s pattern : string) : option bool :=
  tokens ← like_tokens (lower pattern);
  Some (like_match tokens (lower s)).

(** ** The statements of the store

    A statement that the engine rejects changes no row and raises an
    [Error]; the text of such an error belongs to the driver, not to this
    repository, and stands here in a short form, for the one use that the
    handlers make of it: the message that [processDocument] stores.  The
    sequences are left as they were too; that the engine may have drawn a
    key for an insert that it rejects later on is not part of the
    embedding. *)

Definition db_error_message (e : DbError) : string :=
  match e with
  | unique_violation => "duplicate key value violates unique constraint"
  | foreign_key_violation => "insert or update violates foreign key constraint"
  | integer_out_of_range => "value is out of range for type integer"
  | numeric_field_overflow => "numeric field overflow"
  | like_pattern_ends_with_escape => "LIKE pattern must not end with escape character"
  | negative_offset => "OFFSET must not be negative"
  end.

Definition db_throw {A} (e : DbError) : Handler A :=
  throw (EngineError e).

(** The values of an [integer] or [serial] column: 32 bits, signed. *)
Definition int4 (n : Z) : bool :=
  (-2147483648 <=? n) && (n <=? 2147483647).

(** The amounts of a [numeric(12, 2)] column, in hundredths: less than
    10^10 in absolute value. *)
Definition numeric_12_2 (amount : Z) : bool :=
  Z.abs amount <? 1000000000000.

(** The rows of a table, in the engine's own order. *)
Definition rows {A} (table : gmap Z A) : list A := (map_to_list table).*2.

Definition with_documents (s : DB) (docs : gmap Z Document.t) : DB :=
  mkDB docs (transactions s) (documents_id_seq s) (transactions_id_seq s) (db_now s).

(** A read-only statement. *)
Definition query {A} (q : DB → A) : Handler A := λ s, mkRun (Returned (q s)) s [].

(** A data-changing statement that succeeds with [a] and leaves [s']. *)
Definition wrote {A} (a : A) (s' : DB) : Run A := mkRun (Returned a) s' [s'].

(** [db.select().from(documentsTable).where(eq(documentsTable.id, id))].
    The engine turns down an [id] that the column cannot hold.  The keys of
    a table are values of its column, so that the row of [id], when there
    is one, is found. *)
Definition select_documents_where_id (id : Z) : Handler (list Document.t) :=
  λ s,
    match documents s !! id with
    | Some document => query (λ _, [document]) s
    | None =>
        if int4 id then query (λ _, []) s
        else db_throw integer_out_of_range s
    end.

(** The object handed to [.set(...)] on the documents table: a column whose
    key is absent keeps its value. *)
Module DocumentUpdate.
Record t : Type := mk {
    processing_status : option ProcessingStatus;
    error_message : option (option string)
  }.
End DocumentUpdate.

Definition set_document (values : DocumentUpdate.t) (d : Document.t) : Document.t :=
  Document.mk
    (Document.id d) (Document.filename d) (Document.original_name d)
    (Document.file_size d) (Document.mime_type d) (Document.upload_date d)
    (default (Document.processing_status d) (DocumentUpdate.processing_status values))
    (default (Document.error_message d) (DocumentUpdate.error_message values)).

(** [db.update(documentsTable).set(values).where(eq(documentsTable.id, id))
      .returning()] *)
Definition update_documents_where_id (id : Z) (values : DocumentUpdate.t)
  : Handler (list Document.t) :=
  λ s,
    match documents s !! id with
    | Some _ =>
        let s' := with_documents s (alter (set_document values) id (documents s)) in
        wrote (option_list (documents s' !! id)) s'
    | None =>
        if int4 id then wrote [] s
        else db_throw integer_out_of_range s
    end.

(** [db.insert(documentsTable).values(v).returning()], the inserted row.
    [file_size] is an [integer] column. *)
Definition insert_document (v : NewDocument.t) : Handler Document.t :=
  λ s,
    if negb (int4 (NewDocument.file_size v)) then db_throw integer_out_of_range s
    else
      let id := documents_id_seq s in
      match documents s !! id with
      | Some _ => db_throw unique_violation s
      | None =>
          let row :=
            Document.mk id
              (NewDocument.filename v) (NewDocument.original_name v)
              (NewDocument.file_size v) (NewDocument.mime_type v)
              (default (db_now s) (NewDocument.upload_date v))
              (default pending (NewDocument.processing_status v))
              (NewDocument.error_message v) in
          wrote row
            (mkDB (<[id := row]> (documents s)) (transactions s)
               (id + 1) (transactions_id_seq s) (db_now s))
      end.

(** [db.insert(transactionsTable).values(v).returning()], the inserted
    row.  [amount] is a [numeric(12, 2)] column; [document_id] is an
    [integer] column that references [documents.id]. *)
Definition insert_transaction (v : NewTransaction.t) : Handler Transaction.t :=
  λ s,
    if negb (numeric_12_2 (NewTransaction.amount v)) then
      db_throw numeric_field_overflow s
    else
      let id := transactions_id_seq s in
      match transactions s !! id with
      | Some _ => db_throw unique_violation s
      | None =>
          match documents s !! NewTransaction.document_id v with
          | None =>
              if int4 (NewTransaction.document_id v)
              then db_throw foreign_key_violation s
              else db_throw integer_out_of_range s
          | Some _ =>
              let row :=
                Transaction.mk id
                  (NewTransaction.document_id v) (NewTransaction.transaction_date v)
                  (NewTransaction.amount v) (NewTransaction.description v)
                  (NewTransaction.account_number v) (NewTransaction.vendor_name v)
                  (NewTransaction.transaction_type v) (db_now s) in
              wrote row
                (mkDB (documents s) (<[id := row]> (transactions s))
                   (documents_id_seq s) (id + 1) (db_now s))
          end
      end.

(** [db.delete(documentsTable).where(eq(documentsTable.id, id))]: the
    transactions of a deleted document go with it
    ([onDelete: 'cascade']). *)
Definition delete_documents_where_id (id : Z) : Handler unit :=
  λ s,
    match documents s !! id with
    | None => wrote () s
    | Some _ =>
        wrote ()
          (mkDB (delete id (documents s))
             (filter (λ kt, Transaction.document_id kt.2 ≠ id) (transactions s))
             (documents_id_seq s) (transactions_id_seq s) (db_now s))
    end.

(** [db.delete(transactionsTable).where(eq(transactionsTable.id, id))
      .returning()] *)
Definition delete_transactions_where_id (id : Z) : Handler (list Transaction.t) :=
  λ s,
    wrote (option_list (transactions s !! id))
      (mkDB (documents s) (delete id (transactions s))
         (documents_id_seq s) (transactions_id_seq s) (db_now s)).

(** ** Ordering ([asc], [desc], [orderBy]) *)

(** The order of a column type.  A null sorts as larger than every value:
    last in ascending, first in descending order. *)
Class SqlOrd (K : Type) := sql_le : K → K → bool.

#[global] Instance SqlOrd_Z : SqlOrd Z := Z.leb.

#[global] Instance SqlOrd_string : SqlOrd string := String.leb.

#[global] Instance SqlOrd_nullable {K} `{SqlOrd K} : SqlOrd (option K) :=
  λ a b,
    match a, b with
    | _, None => true
    | None, Some _ => false
    | Some x, Some y => sql_le x y
    end.

Definition asc {A K} `{SqlOrd K} (column : A → K) : relation A :=
  λ a b, sql_le (column a) (column b).

Definition desc {A K} `{SqlOrd K} (column : A → K) : relation A :=
  λ a b, sql_le (column b) (column a).

#[global] Instance asc_dec {A K} `{SqlOrd K} (column : A → K) :
  RelDecision (asc column).
Proof. intros a b. unfold asc. apply _. Defined.

#[global] Instance desc_dec {A K} `{SqlOrd K} (column : A → K) :
  RelDecision (desc column).
Proof. intros a b. unfold desc. apply _. Defined.

(** The engine returns the rows in some order that respects the sort key;
    which one among rows of equal key is its own choice, made anew for each
    query.  The embedding takes the stable merge sort: one of the orders
    that the engine may choose. *)
Definition orderBy {A} (R : relation A) `{!RelDecision R} (l : list A) : list A :=
  merge_sort R l.

(** ** Conditions of a [where] clause

    A condition evaluates on a row to [Some b], or to [None] when the
    engine raises.  A comparison with a null column is not true, so the row
    is left out. *)

Definition Condition : Type := Transaction.t → option bool.

Fixpoint and_ (conditions : list Condition) : Condition :=
  λ t,
    match conditions with
    | [] => Some true
    | c :: rest => b ← c t; bs ← and_ rest t; Some (b && bs)
    end.

Fixpoint or_ (conditions : list Condition) : Condition :=
  λ t,
    match conditions with
    | [] => Some false
    | c :: rest => b ← c t; bs ← or_ rest t; Some (b || bs)
    end.

Definition gte {K} `{SqlOrd K} (column : Transaction.t → K) (v : K) : Condition :=
  λ t, Some (sql_le v (column t)).

Definition lte {K} `{SqlOrd K} (column : Transaction.t → K) (v : K) : Condition :=
  λ t, Some (sql_le (column t) v).

Definition eq_ {K} `{EqDecision K} (column : Transaction.t → option K) (v : K)
  : Condition :=
  λ t, Some (bool_decide (column t = Some v)).

Definition isNotNull {K} (column : Transaction.t → option K) : Condition :=
  λ t, Some (bool_decide (is_Some (column t))).

Definition ilike_text (column : Transaction.t → string) (pattern : string)
  : Condition :=
  λ t, ilike (column t) pattern.

Definition ilike_nullable (column : Transaction.t → option string)
    (pattern : string) : Condition :=
  λ t,
    match column t with
    | None => Some false
    | Some s => ilike s pattern
    end.

Fixpoint where_ (c : Condition) (l : list Transaction.t)
  : option (list Transaction.t) :=
  match l with
  | [] => Some []
  | t :: l' =>
      b ← c t;
      rest ← where_ c l';
      Some (if b : bool then t :: rest else rest)
  end.

(** A JavaScript string is truthy when it is not empty. *)
Definition truthy (s : string) : bool :=
  match s with
  | EmptyString => false
  | String _ _ => true
  end.

(** [Math.ceil(a / b)] for a positive [b]. *)
Definition ceil_div (a b : Z) : Z := - ((- a) / b).

(** ** The handlers *)

Module ExtractedTransactionData.
Record t : Type := mk {
    transaction_date : Z;
    amount : Z;
    description : string;
    account_number : option string;
    vendor_name : option string;
    transaction_type : option TransactionType
  }.
End ExtractedTransactionData.

(** [new Date('2024-01-15')] and [new Date('2024-01-16')], midnight UTC. *)
Definition date_2024_01_15 : Z := 1705276800000.
Definition date_2024_01_16 : Z := 1705363200000.

Definition mockTransactions : list ExtractedTransactionData.t :=
  [ ExtractedTransactionData.mk date_2024_01_15 (-15075) "ATM Withdrawal"
      (Some "****1234") (Some "Chase ATM") (Some debit);
    ExtractedTransactionData.mk date_2024_01_16 250000 "Direct Deposit Salary"
      (Some "****1234") (Some "ACME Corp") (Some credit) ].

Definition extractTransactionsFromDocument (document : Document.t)
  : Handler (list ExtractedTransactionData.t) :=
  if includes "empty" (Document.filename document) then ret []
  else if includes "error" (Document.filename document) then
    throw (ErrorObj "PDF parsing failed - corrupted file")
  else ret mockTransactions.

(** The loop [for (const transactionData of extractedTransactions)] of
    [processDocument], with [savedTransactions] as accumulator. *)
Fixpoint saveTransactions (documentId : Z)
    (extractedTransactions : list ExtractedTransactionData.t)
    (savedTransactions : list Transaction.t) : Handler (list Transaction.t) :=
  match extractedTransactions with
  | [] => ret savedTransactions
  | transactionData :: remaining =>
      let* transaction :=
        insert_transaction
          (NewTransaction.mk documentId
             (ExtractedTransactionData.transaction_date transactionData)
             (ExtractedTransactionData.amount transactionData)
             (ExtractedTransactionData.description transactionData)
             (ExtractedTransactionData.account_number transactionData)
             (ExtractedTransactionData.vendor_name transactionData)
             (ExtractedTransactionData.transaction_type transactionData)) in
      saveTransactions documentId remaining (savedTransactions ++ [transaction])
  end.

(** [error instanceof Error ? error.message : 'Unknown processing error'] *)
Definition processing_error_message (error : Thrown) : string :=
  match error with
  | ErrorObj message => message
  | EngineError error => db_error_message error
  | NonError => "Unknown processing error"
  end.

Definition processDocument (documentId : Z) : Handler (list Transaction.t) :=
  try_catch
    (let* documents := select_documents_where_id documentId in
     match documents with
     | [] =>
         throw (ErrorObj ("Document with ID " +:+ show documentId +:+ " not found"))
     | document :: _ =>
         run* update_documents_where_id documentId
                (DocumentUpdate.mk (Some processing) (Some None)) in
         let* extractedTransactions := extractTransactionsFromDocument document in
         let* savedTransactions :=
           saveTransactions documentId extractedTransactions [] in
         run* update_documents_where_id documentId
                (DocumentUpdate.mk (Some completed) (Some None)) in
         ret savedTransactions
     end)
    (λ error,
       run* update_documents_where_id documentId
              (DocumentUpdate.mk (Some failed)
                 (Some (Some (processing_error_message error)))) in
       throw error).

Definition updateDocumentStatus (input : UpdateDocumentStatusInput.t)
  : Handler Document.t :=
  try_catch
    (let updateValues :=
       match UpdateDocumentStatusInput.processing_status input with
       | failed =>
           DocumentUpdate.mk (Some failed)
             (UpdateDocumentStatusInput.error_message input)
       | status => DocumentUpdate.mk (Some status) (Some None)
       end in
     let* result :=
       update_documents_where_id (UpdateDocumentStatusInput.id input) updateValues in
     match result with
     | [] =>
         throw (ErrorObj ("Document with id "
                          +:+ show (UpdateDocumentStatusInput.id input)
                          +:+ " not found"))
     | document :: _ => ret document
     end)
    (λ error, throw error).

(** [timestamp] is the reading of [Date.now()], [randomSuffix] the text
    [Math.random().toString(36).substring(2, 8)]. *)
Definition uploadDocument (input : UploadDocumentInput.t)
    (timestamp : Z) (randomSuffix : string) : Handler Document.t :=
  try_catch
    (let generatedFilename :=
       "doc_" +:+ show timestamp +:+ "_" +:+ randomSuffix +:+ ".pdf" in
     let* result :=
       insert_document
         (NewDocument.mk generatedFilename
            (UploadDocumentInput.original_name input)
            (UploadDocumentInput.file_size input)
            (UploadDocumentInput.mime_type input)
            None (Some pending) None) in
     ret result)
    (λ error, throw error).

Definition createTransaction (input : CreateTransactionInput.t)
  : Handler Transaction.t :=
  try_catch
    (let* document :=
       select_documents_where_id (CreateTransactionInput.document_id input) in
     match document with
     | [] =>
         throw (ErrorObj ("Document with ID "
                          +:+ show (CreateTransactionInput.document_id input)
                          +:+ " not found"))
     | _ :: _ =>
         let* transaction :=
           insert_transaction
             (NewTransaction.mk
                (CreateTransactionInput.document_id input)
                (CreateTransactionInput.transaction_date input)
                (CreateTransactionInput.amount input)
                (CreateTransactionInput.description input)
                (CreateTransactionInput.account_number input)
                (CreateTransactionInput.vendor_name input)
                (CreateTransactionInput.transaction_type input)) in
         ret transaction
     end)
    (λ error, throw error).

Definition getDocuments : Handler (list Document.t) :=
  try_catch
    (let* results :=
       query (λ s, orderBy (desc Document.upload_date) (rows (documents s))) in
     ret results)
    (λ error, throw error).

Definition getTransactions : Handler (list Transaction.t) :=
  try_catch
    (let* results :=
       query (λ s,
         orderBy (desc Transaction.transaction_date) (rows (transactions s))) in
     ret results)
    (λ error, throw error).

Definition getDocumentTransactions (documentId : Z)
  : Handler (list Transaction.t) :=
  try_catch
    (let* document := select_documents_where_id documentId in
     match document with
     | [] =>
         throw (ErrorObj ("Document with ID " +:+ show documentId +:+ " not found"))
     | _ :: _ =>
         let* results :=
           query (λ s,
             orderBy (asc Transaction.transaction_date)
               (filter (λ t, Transaction.document_id t = documentId)
                  (rows (transactions s)))) in
         ret results
     end)
    (λ error, throw error).

(** The [conditions] array of [searchTransactions], in the order of the
    pushes. *)
Definition search_conditions (input : SearchTransactionsInput.t)
  : list Condition :=
  match SearchTransactionsInput.search_term input with
  | Some term =>
      if truthy term then
        let pattern := "%" +:+ term +:+ "%" in
        [ or_ [ ilike_text Transaction.description pattern;
                and_ [ isNotNull Transaction.vendor_name;
                       ilike_nullable Transaction.vendor_name pattern ] ] ]
      else []
  | None => []
  end ++
  match SearchTransactionsInput.date_from input with
  | Some date_from => [ gte Transaction.transaction_date date_from ]
  | None => []
  end ++
  match SearchTransactionsInput.date_to input with
  | Some date_to => [ lte Transaction.transaction_date date_to ]
  | None => []
  end ++
  match SearchTransactionsInput.min_amount input with
  | Some min_amount => [ gte Transaction.amount min_amount ]
  | None => []
  end ++
  match SearchTransactionsInput.max_amount input with
  | Some max_amount => [ lte Transaction.amount max_amount ]
  | None => []
  end ++
  match SearchTransactionsInput.account_number input with
  | Some account_number =>
      if truthy account_number
      then [ eq_ Transaction.account_number account_number ] else []
  | None => []
  end ++
  match SearchTransactionsInput.vendor_name input with
  | Some vendor_name =>
      if truthy vendor_name
      then [ eq_ Transaction.vendor_name vendor_name ] else []
  | None => []
  end ++
  match SearchTransactionsInput.transaction_type input with
  | Some transaction_type =>
      [ eq_ Transaction.transaction_type transaction_type ]
  | None => []
  end.

(** [if (conditions.length > 0) query = query.where(and(...conditions))] *)
Definition apply_where (conditions : list Condition) (l : list Transaction.t)
  : option (list Transaction.t) :=
  match conditions with
  | [] => Some l
  | _ :: _ => where_ (and_ conditions) l
  end.

(** The [orderBy] chosen by [sort_by] and [sort_order]. *)
Definition search_order (input : SearchTransactionsInput.t)
    (l : list Transaction.t) : list Transaction.t :=
  match SearchTransactionsInput.sort_by input,
        SearchTransactionsInput.sort_order input with
  | by_transaction_date, sort_desc => orderBy (desc Transaction.transaction_date) l
  | by_transaction_date, sort_asc => orderBy (asc Transaction.transaction_date) l
  | by_amount, sort_desc => orderBy (desc Transaction.amount) l
  | by_amount, sort_asc => orderBy (asc Transaction.amount) l
  | by_description, sort_desc => orderBy (desc Transaction.description) l
  | by_description, sort_asc => orderBy (asc Transaction.description) l
  | by_vendor_name, sort_desc => orderBy (desc Transaction.vendor_name) l
  | by_vendor_name, sort_asc => orderBy (asc Transaction.vendor_name) l
  end.

(** [query.limit(limit).offset(offset).execute()].  A negative limit is
    no limit; a negative offset is turned down. *)
Definition execute_page (conditions : list Condition)
    (order : list Transaction.t → list Transaction.t) (limit offset : Z)
  : Handler (list Transaction.t) :=
  λ s,
    match apply_where conditions (rows (transactions s)) with
    | None => db_throw like_pattern_ends_with_escape s
    | Some matching =>
        if offset <? 0 then db_throw negative_offset s
        else
          let rest := drop (Z.to_nat offset) (order matching) in
          mkRun (Returned (if limit <? 0 then rest else take (Z.to_nat limit) rest))
            s []
    end.

(** [db.select({ count: count() }).from(transactionsTable).where(...)] *)
Definition execute_count (conditions : list Condition) : Handler Z :=
  λ s,
    match apply_where conditions (rows (transactions s)) with
    | None => db_throw like_pattern_ends_with_escape s
    | Some matching => mkRun (Returned (Z.of_nat (length matching))) s []
    end.

Definition searchTransactions (input : SearchTransactionsInput.t)
  : Handler PaginatedTransactions.t :=
  try_catch
    (let offset :=
       (SearchTransactionsInput.page input - 1) * SearchTransactionsInput.limit input in
     let conditions := search_conditions input in
     let* results :=
       execute_page conditions (search_order input)
         (SearchTransactionsInput.limit input) offset in
     let* totalCount := execute_count conditions in
     let totalPages := ceil_div totalCount (SearchTransactionsInput.limit input) in
     ret (PaginatedTransactions.mk results totalCount
            (SearchTransactionsInput.page input)
            (SearchTransactionsInput.limit input)
            totalPages))
    (λ error, throw error).

(** [x || fallback] on an optional string: the fallback replaces
    [undefined] and the empty string. *)
Definition or_string (x : option string) (fallback : string) : string :=
  match x with
  | Some s => if truthy s then s else fallback
  | None => fallback
  end.

(** [x || null] on an optional, nullable string. *)
Definition or_null_string (x : option (option string)) : option string :=
  match x with
  | Some (Some s) => if truthy s then Some s else None
  | _ => None
  end.

(** The handler is a placeholder in the source: it builds its answer from
    the input alone.  [now_date] and [now_created] are the readings of the
    two [new Date()]. *)
Definition updateTransaction (input : UpdateTransactionInput.t)
    (now_date now_created : Z) : Handler Transaction.t :=
  ret (Transaction.mk
         (UpdateTransactionInput.id input)
         1
         (default now_date (UpdateTransactionInput.transaction_date input))
         (default 0 (UpdateTransactionInput.amount input))
         (or_string (UpdateTransactionInput.description input) "Placeholder description")
         (or_null_string (UpdateTransactionInput.account_number input))
         (or_null_string (UpdateTransactionInput.vendor_name input))
         (default None (UpdateTransactionInput.transaction_type input))
         now_created).

Record DeleteTransactionResult : Type := { success : bool }.

(** Modelled from the spec: the handler [deleteTransaction] of
    [server/src/handlers/delete_transaction.ts] is not among the sources;
    only its tests and its route are.  By the specification and the tests it
    removes the transaction row of the given id and answers
    [{ success: true }], and for an id without a row it throws
    [Transaction with id <id> not found] and changes nothing. *)
Definition deleteTransaction (id : Z) : Handler DeleteTransactionResult :=
  try_catch
    (let* result := delete_transactions_where_id id in
     match result with
     | [] => throw (ErrorObj ("Transaction with id " +:+ show id +:+ " not found"))
     | _ :: _ => ret {| success := true |}
     end)
    (λ error, throw error).

(** ** The operations on the store

    The routes of the server, and the one statement of the test suites
    that deletes a document. *)
Inductive Operation : Type :=
  | op_uploadDocument (input : UploadDocumentInput.t) (timestamp : Z) (randomSuffix : string)
  | op_getDocuments
  | op_updateDocumentStatus (input : UpdateDocumentStatusInput.t)
  | op_processDocument (documentId : Z)
  | op_getDocumentTransactions (documentId : Z)
  | op_createTransaction (input : CreateTransactionInput.t)
  | op_getTransactions
  | op_searchTransactions (input : SearchTransactionsInput.t)
  | op_updateTransaction (input : UpdateTransactionInput.t) (now_date now_created : Z)
  | op_deleteTransaction (id : Z)
  | op_deleteDocument (id : Z).

(** The store an operation leaves. *)
Definition after (op : Operation) (s : DB) : DB :=
  match op with
  | op_uploadDocument input timestamp randomSuffix =>
      final (uploadDocument input timestamp randomSuffix s)
  | op_getDocuments => final (getDocuments s)
  | op_updateDocumentStatus input => final (updateDocumentStatus input s)
  | op_processDocument documentId => final (processDocument documentId s)
  | op_getDocumentTransactions documentId => final (getDocumentTransactions documentId s)
  | op_createTransaction input => final (createTransaction input s)
  | op_getTransactions => final (getTransactions s)
  | op_searchTransactions input => final (searchTransactions input s)
  | op_updateTransaction input now_date now_created =>
      final (updateTransaction input now_date now_created s)
  | op_deleteTransaction id => final (deleteTransaction id s)
  | op_deleteDocument id => final (delete_documents_where_id id s)
  end.

(** ** Invariants of the store *)

(** Every transaction references a document that exists. *)
Definition referential_integrity (s : DB) : Prop :=
  map_Forall
    (λ _ t, is_Some (documents s !! Transaction.document_id t))
    (transactions s).

(** The sequences are ahead of the keys in use. *)
Definition sequences_ahead (s : DB) : Prop :=
  map_Forall (λ k _, k < documents_id_seq s) (documents s) ∧
  map_Forall (λ k _, k < transactions_id_seq s) (transactions s).

#[global] Instance referential_integrity_dec (s : DB) :
  Decision (referential_integrity s).
Proof. unfold referential_integrity. apply _. Defined.

#[global] Instance sequences_ahead_dec (s : DB) : Decision (sequences_ahead s).
Proof. unfold sequences_ahead. apply _. Defined.

(** ** The input schemas ([server/src/schema.ts]) and the routes
    ([server/src/index.ts])

    A schema either hands on the data it has checked, with the defaults
    filled in, or lists what is wrong with the input.  A route runs its
    handler on the checked data; an input that the schema turns down never
    reaches the handler. *)

Inductive ZodIssue : Type :=
  | too_small (path : string)
  | too_big (path : string)
  | custom (path message : string).

Inductive SafeParse (A : Type) : Type :=
  | parse_success (data : A)
  | parse_failure (issues : list ZodIssue).
Arguments parse_success {A} data.
Arguments parse_failure {A} issues.

(** The outcome of checking a whole object: the data when no field raised
    an issue. *)
Definition parsed {A} (issues : list ZodIssue) (data : A) : SafeParse A :=
  match issues with
  | [] => parse_success data
  | _ :: _ => parse_failure issues
  end.

(** [file_size: z.number().positive()] and [mime_type: z.string().refine(
    (type) => type === 'application/pdf', ...)]. *)
Definition uploadDocumentInputSchema (input : UploadDocumentInput.t)
  : SafeParse UploadDocumentInput.t :=
  parsed
    ((if 0 <? UploadDocumentInput.file_size input then []
      else [too_small "file_size"]) ++
     (if String.eqb (UploadDocumentInput.mime_type input) "application/pdf" then []
      else [custom "mime_type" "Only PDF files are allowed"]))
    input.

(** What a client may send to the search route: the four fields with a
    default may be left out. *)
Module SearchTransactionsRequest.
Record t : Type := mk {
    search_term : option string;
    date_from : option Z;
    date_to : option Z;
    min_amount : option Z;
    max_amount : option Z;
    account_number : option string;
    vendor_name : option string;
    transaction_type : option TransactionType;
    sort_by : option SortBy;
    sort_order : option SortOrder;
    page : option Z;
    limit : option Z
  }.
End SearchTransactionsRequest.


Inductive Response (A : Type) : Type :=
  | bad_request (issues : list ZodIssue)
  | handled (run : Run A).
Arguments bad_request {A} issues.
Arguments handled {A} run.

(** [publicProcedure.input(schema).mutation(({ input }) => handler(input))],
    and the same with [.query]. *)
Definition procedure {I I' A} (schema : I → SafeParse I')
    (handler : I' → Handler A) (input : I) (s : DB) : Response A :=
  match schema input with
  | parse_success data => handled (handler data s)
  | parse_failure issues => bad_request issues
  end.

Definition route_uploadDocument (timestamp : Z) (randomSuffix : string)
  : UploadDocumentInput.t → DB → Response Document.t :=
  procedure uploadDocumentInputSchema
    (λ input, uploadDocument input timestamp randomSuffix).


(** ** The client

    The parts of the React components that compute: the check of a file
    before it is uploaded ([DocumentUpload.handleFileUpload]) and the page
    buttons under the table of transactions ([TransactionTable]). *)

Module File.
Record t : Type := mk {
    name : string;
    size : Z;
    type : string
  }.
End File.

(** The message that [handleFileUpload] shows instead of uploading, if
    any. *)
Definition handleFileUpload_error (file : File.t) : option string :=
  if negb (String.eqb (File.type file) "application/pdf") then
    Some "Please upload a PDF file only."
  else if 10 * 1024 * 1024 <? File.size file then
    Some "File size must be less than 10MB."
  else None.

(** [uploadData], the input that [handleFileUpload] sends. *)
Definition uploadData (file : File.t) : UploadDocumentInput.t :=
  UploadDocumentInput.mk (File.name file) (File.name file)
    (File.size file) (File.type file).

(** [const totalPages = Math.ceil(totalCount / 20)] *)
Definition totalPages_of (totalCount : Z) : Z := ceil_div totalCount 20.

(** The page buttons that the table renders:
    [{totalPages > 1 && ( ... Array.from({ length: Math.min(5, totalPages) },
    (_, i) => ...) ... )}], the page of each button, [None] where the
    callback returns [null]; no button at all unless there is more than
    one page. *)
Definition page_buttons (currentPage totalPages : Z) : list (option Z) :=
  if 1 <? totalPages then
    (λ i,
       let page := if currentPage <=? 3 then i + 1 else currentPage - 2 + i in
       if totalPages <? page then None else Some page)
      <$> seqZ 0 (Z.min 5 totalPages)
  else [].

(** * Definitions for the statements

    Nothing below is part of the program: these are the notions in which
    the properties are stated. *)

(** ** Runs *)

(** A run with earlier writes put in front of its own. *)
Definition after_writes {A} (w : list DB) (r : Run A) : Run A :=
  mkRun (outcome r) (final r) (w ++ writes r).

(** A handler preserves [P] when, started in a store with [P], every store
    it writes and the store it leaves have [P]. *)
Definition preserves {A} (P : DB → Prop) (m : Handler A) : Prop :=
  ∀ s, P s → P (final (m s)) ∧ Forall P (writes (m s)).

(** ** The steps of [processDocument] *)

(** [.set(values)] on the row of key [id], as a function of the store. *)
Definition mark (id : Z) (values : DocumentUpdate.t) (s : DB) : DB :=
  with_documents s (alter (set_document values) id (documents s)).

Definition set_processing : DocumentUpdate.t :=
  DocumentUpdate.mk (Some processing) (Some None).

Definition set_completed : DocumentUpdate.t :=
  DocumentUpdate.mk (Some completed) (Some None).

Definition set_failed (error : Thrown) : DocumentUpdate.t :=
  DocumentUpdate.mk (Some failed) (Some (Some (processing_error_message error))).

(** The steps of [processDocument] between the two updates of the status:
    extraction, then the inserts. *)
Definition extract_and_save (documentId : Z) (document : Document.t)
  : Handler (list Transaction.t) :=
  let* extractedTransactions := extractTransactionsFromDocument document in
  saveTransactions documentId extractedTransactions [].

(** The status and the error message stored for a document, if it has a
    row. *)
Definition stored_status (id : Z) (s : DB)
  : option (ProcessingStatus * option string) :=
  (λ d, (Document.processing_status d, Document.error_message d))
    <$> documents s !! id.

(** The rows that the two mock transactions become. *)
Definition mock_row_1 (id documentId now : Z) : Transaction.t :=
  Transaction.mk id documentId date_2024_01_15 (-15075) "ATM Withdrawal"
    (Some "****1234") (Some "Chase ATM") (Some debit) now.

Definition mock_row_2 (id documentId now : Z) : Transaction.t :=
  Transaction.mk id documentId date_2024_01_16 250000 "Direct Deposit Salary"
    (Some "****1234") (Some "ACME Corp") (Some credit) now.

(** ** The filters of a search, in the words of the specification

    [claimed_satisfies] reads the claim to the letter: every filter that
    the input supplies holds of the row, the search term as a substring of
    the description or of a vendor name that is not null.
    [satisfies] is the reading that the handler implements: the search
    term is looked for without regard to case, and a text filter that is
    supplied empty is not applied. *)



(** [p x] when the filter is supplied as [x], nothing otherwise. *)
Definition when_supplied {K} (filter : option K) (p : K → bool) : bool :=
  match filter with
  | Some x => p x
  | None => true
  end.





(** ** What a write keeps *)

(** The columns of a document that describe the uploaded file. *)
Definition same_file (d d' : Document.t) : Prop :=
  Document.id d' = Document.id d ∧
  Document.filename d' = Document.filename d ∧
  Document.original_name d' = Document.original_name d ∧
  Document.file_size d' = Document.file_size d ∧
  Document.mime_type d' = Document.mime_type d ∧
  Document.upload_date d' = Document.upload_date d.

(** [s] still has every transaction of [s0], unchanged, and every document
    of [s0], with the same file columns. *)
Definition keeps_stored_data (s0 s : DB) : Prop :=
  (∀ k t, transactions s0 !! k = Some t → transactions s !! k = Some t) ∧
  (∀ k d, documents s0 !! k = Some d →
          ∃ d', documents s !! k = Some d' ∧ same_file d d').

(** [s] differs from [s0] at most in the row of the document [id] and in
    transactions of that document that [s0] does not have. *)
Definition touches_only (id : Z) (s0 s : DB) : Prop :=
  (∀ k, k ≠ id → documents s !! k = documents s0 !! k) ∧
  (∀ k t, transactions s !! k = Some t →
          transactions s0 !! k = Some t ∨ Transaction.document_id t = id).

(** ** Notions for the search *)

(** The row passes the [where] clause that the handler builds. *)
Definition matches (input : SearchTransactionsInput.t) (t : Transaction.t) : bool :=
  bool_decide (and_ (search_conditions input) t = Some true).

(** [a] may stand before [b] in the order that the input asks for. *)
Definition in_order (input : SearchTransactionsInput.t)
    (a b : Transaction.t) : bool :=
  let le (x y : Transaction.t) :=
    match SearchTransactionsInput.sort_by input with
    | by_transaction_date =>
        sql_le (Transaction.transaction_date x) (Transaction.transaction_date y)
    | by_amount => sql_le (Transaction.amount x) (Transaction.amount y)
    | by_description =>
        sql_le (Transaction.description x) (Transaction.description y)
    | by_vendor_name =>
        sql_le (Transaction.vendor_name x) (Transaction.vendor_name y)
    end in
  match SearchTransactionsInput.sort_order input with
  | sort_asc => le a b
  | sort_desc => le b a
  end.

#[global] Instance Transaction_eq_dec : EqDecision Transaction.t.
Proof. solve_decision. Defined.

(** No two rows of [l] have the same sort key: rows that may stand either
    way round are one row. *)
Definition distinct_keys (input : SearchTransactionsInput.t)
    (l : list Transaction.t) : Prop :=
  Forall
    (λ a, Forall (λ b, in_order input a b → in_order input b a → a = b) l)
    l.

#[global] Instance distinct_keys_dec input l : Decision (distinct_keys input l).
Proof. unfold distinct_keys. apply _. Defined.

(** The input with another page, and with another search term. *)
Definition with_page (input : SearchTransactionsInput.t) (page : Z)
  : SearchTransactionsInput.t :=
  SearchTransactionsInput.mk
    (SearchTransactionsInput.search_term input)
    (SearchTransactionsInput.date_from input)
    (SearchTransactionsInput.date_to input)
    (SearchTransactionsInput.min_amount input)
    (SearchTransactionsInput.max_amount input)
    (SearchTransactionsInput.account_number input)
    (SearchTransactionsInput.vendor_name input)
    (SearchTransactionsInput.transaction_type input)
    (SearchTransactionsInput.sort_by input)
    (SearchTransactionsInput.sort_order input)
    page
    (SearchTransactionsInput.limit input).

Definition with_search_term (input : SearchTransactionsInput.t)
    (term : option string) : SearchTransactionsInput.t :=
  SearchTransactionsInput.mk
    term
    (SearchTransactionsInput.date_from input)
    (SearchTransactionsInput.date_to input)
    (SearchTransactionsInput.min_amount input)
    (SearchTransactionsInput.max_amount input)
    (SearchTransactionsInput.account_number input)
    (SearchTransactionsInput.vendor_name input)
    (SearchTransactionsInput.transaction_type input)
    (SearchTransactionsInput.sort_by input)
    (SearchTransactionsInput.sort_order input)
    (SearchTransactionsInput.page input)
    (SearchTransactionsInput.limit input).

(** The transactions that a run answered with; none when it threw. *)
Definition page_of (r : Run PaginatedTransactions.t) : list Transaction.t :=
  match outcome r with
  | Returned result => PaginatedTransactions.transactions result
  | Threw _ => []
  end.

(** Text within ASCII, where the case folding of [ILIKE] is the one of
    [lower] and a character is a byte. *)
Definition ascii_char (c : ascii) : bool := (Ascii.N_of_ascii c <? 128)%N.

Fixpoint ascii_only (s : string) : bool :=
  match s with
  | EmptyString => true
  | String c rest => ascii_char c && ascii_only rest
  end.

(** The texts that a search term is compared with are within ASCII. *)
Definition ascii_texts (s : DB) : Prop :=
  map_Forall
    (λ _ t,
       ascii_only (Transaction.description t) = true ∧
       from_option ascii_only true (Transaction.vendor_name t) = true)
    (transactions s).

#[global] Instance ascii_texts_dec (s : DB) : Decision (ascii_texts s).
Proof. unfold ascii_texts. apply _. Defined.

(** ** Inputs within the limits of the engine

    What the engine does with a text that holds the character of code 0,
    with a date that the driver writes with a year outside 1 to 9999, with
    a limit or an offset beyond the integers that a JavaScript [number]
    holds exactly, or with a sort on a text column, whose order is the one
    of the collation of the database, is not part of the embedding.  The
    statements that say how a call with user input ends are about inputs
    within these limits. *)

Fixpoint storable_text (s : string) : bool :=
  match s with
  | EmptyString => true
  | String c rest => negb (Ascii.eqb c "000"%char) && storable_text rest
  end.

(** From 0001-01-01T00:00:00.000Z to 9999-12-31T23:59:59.999Z. *)
Definition timestamp_in_range (t : Z) : bool :=
  (-62135596800000 <=? t) && (t <=? 253402300799999).

(** [Number.MAX_SAFE_INTEGER] *)
Definition max_safe_integer : Z := 9007199254740991.

Definition filters_in_range (input : SearchTransactionsInput.t) : bool :=
  when_supplied (SearchTransactionsInput.search_term input) storable_text &&
  when_supplied (SearchTransactionsInput.account_number input) storable_text &&
  when_supplied (SearchTransactionsInput.vendor_name input) storable_text &&
  when_supplied (SearchTransactionsInput.date_from input) timestamp_in_range &&
  when_supplied (SearchTransactionsInput.date_to input) timestamp_in_range.

(** The sort key is a column of numbers: a date or an amount. *)
Definition sorts_on_number (input : SearchTransactionsInput.t) : bool :=
  match SearchTransactionsInput.sort_by input with
  | by_transaction_date | by_amount => true
  | by_description | by_vendor_name => false
  end.

Definition storable_upload (input : UploadDocumentInput.t) : bool :=
  int4 (UploadDocumentInput.file_size input) &&
  storable_text (UploadDocumentInput.original_name input) &&
  storable_text (UploadDocumentInput.mime_type input).

Definition storable_transaction (input : CreateTransactionInput.t) : bool :=
  numeric_12_2 (CreateTransactionInput.amount input) &&
  timestamp_in_range (CreateTransactionInput.transaction_date input) &&
  storable_text (CreateTransactionInput.description input) &&
  from_option storable_text true (CreateTransactionInput.account_number input) &&
  from_option storable_text true (CreateTransactionInput.vendor_name input).

(** The error message of the input, when it has one, is text that the
    column takes. *)
Definition storable_message (input : UpdateDocumentStatusInput.t) : bool :=
  match UpdateDocumentStatusInput.error_message input with
  | Some (Some message) => storable_text message
  | _ => true
  end.



(** [c] is one of the characters of [s]. *)
Fixpoint occurs (c : ascii) (s : string) : bool :=
  match s with
  | EmptyString => false
  | String a rest => Ascii.eqb c a || occurs c rest
  end.

(** [uploadedDocument] as [handleDocumentUploaded] receives it, then the
    call [trpc.processDocument.mutate({ documentId: uploadedDocument.id })]:
    the run of the processing on the store that the upload leaves, when the
    upload returned. *)
Definition upload_then_process (input : UploadDocumentInput.t)
    (timestamp : Z) (randomSuffix : string) (s : DB)
  : option (Document.t * Run (list Transaction.t)) :=
  let upload := uploadDocument input timestamp randomSuffix s in
  match outcome upload with
  | Returned uploadedDocument =>
      Some (uploadedDocument,
            processDocument (Document.id uploadedDocument) (final upload))
  | Threw _ => None
  end.

(** ** Stores for the examples *)

Definition sample_document (id : Z) (filename : string) : Document.t :=
  Document.mk id filename "Bank Statement.pdf" 1024000 "application/pdf"
    1700000000000 pending None.

(** Four documents, no transaction yet. *)
Definition sample_store : DB :=
  mkDB (<[1 := sample_document 1 "test-document.pdf"]>
          (<[2 := sample_document 2 "empty-document.pdf"]>
             (<[3 := sample_document 3 "error-document.pdf"]>
                (<[4 := sample_document 4 "empty-error.pdf"]> ∅))))
       ∅ 5 1 1700000000500.

(** A store with one document and 25 transactions, more than a page of
    the client holds. *)
Definition ledger_store : DB :=
  mkDB (<[1 := sample_document 1 "ledger.pdf"]> ∅)
       (list_to_map
          ((λ i, (i, mock_row_1 i 1 1700000000500)) <$> seqZ 1 25))
       2 26 1700000000900.

(** A store with one document and the two transactions of its
    processing. *)
Definition processed_store : DB :=
  mkDB (<[2 := sample_document 2 "statement.pdf"]> ∅)
       (<[7 := mock_row_1 7 2 1700000000500]>
          (<[8 := mock_row_2 8 2 1700000000500]> ∅))
       3 9 1700000000900.

(** * Properties *)

(** ** The handler monad *)

Lemma rethrow {A} (m : Handler A) (s : DB) :
  try_catch m (λ error, throw error) s = m s.
Proof.
  unfold try_catch, throw.
  destruct (m s) as [[a|e] f w]; simpl; [reflexivity|].
  by rewrite app_nil_r.
Qed.

Lemma bind_Returned {A B} (m : Handler A) (k : A → Handler B)
    (s s1 : DB) (a : A) (w1 : list DB) :
  m s = mkRun (Returned a) s1 w1 →
  bind m k s = after_writes w1 (k a s1).
Proof. intros Hm. unfold bind. by rewrite Hm. Qed.

Lemma bind_Threw {A B} (m : Handler A) (k : A → Handler B)
    (s s1 : DB) (e : Thrown) (w1 : list DB) :
  m s = mkRun (Threw e) s1 w1 →
  bind m k s = mkRun (Threw e) s1 w1.
Proof. intros Hm. unfold bind. by rewrite Hm. Qed.

Lemma try_Returned {A} (m : Handler A) (h : Thrown → Handler A)
    (s s1 : DB) (a : A) (w1 : list DB) :
  m s = mkRun (Returned a) s1 w1 →
  try_catch m h s = mkRun (Returned a) s1 w1.
Proof. intros Hm. unfold try_catch. by rewrite Hm. Qed.

Lemma try_Threw {A} (m : Handler A) (h : Thrown → Handler A)
    (s s1 : DB) (e : Thrown) (w1 : list DB) :
  m s = mkRun (Threw e) s1 w1 →
  try_catch m h s = after_writes w1 (h e s1).
Proof. intros Hm. unfold try_catch. by rewrite Hm. Qed.

Lemma after_no_writes {A} (r : Run A) : after_writes [] r = r.
Proof. by destruct r. Qed.

Lemma bind_assoc {A B C} (m : Handler A) (k : A → Handler B) (k' : B → Handler C)
    (s : DB) :
  bind m (λ a, bind (k a) k') s = bind (bind m k) k' s.
Proof.
  unfold bind.
  destruct (m s) as [[a|e] s1 w1]; simpl; [|reflexivity].
  destruct (k a s1) as [[b|e] s2 w2]; simpl; [|reflexivity].
  by rewrite app_assoc.
Qed.

Lemma DB_eta (s : DB) :
  mkDB (documents s) (transactions s) (documents_id_seq s)
    (transactions_id_seq s) (db_now s) = s.
Proof. by destruct s. Qed.

Lemma alter_absent {A} (f : A → A) (i : Z) (m : gmap Z A) :
  m !! i = None → alter f i m = m.
Proof.
  intros Hi. apply map_eq. intros j.
  destruct (decide (i = j)) as [->|Hne].
  - by rewrite lookup_alter_eq, Hi.
  - by rewrite lookup_alter_ne.
Qed.

Lemma select_present (id : Z) (s : DB) (d : Document.t) :
  documents s !! id = Some d →
  select_documents_where_id id s = mkRun (Returned [d]) s [].
Proof. intros Hid. unfold select_documents_where_id. by rewrite Hid. Qed.

Lemma select_absent (id : Z) (s : DB) :
  documents s !! id = None → int4 id = true →
  select_documents_where_id id s = mkRun (Returned []) s [].
Proof. intros Hid Hrange. unfold select_documents_where_id. by rewrite Hid, Hrange. Qed.

Lemma select_out_of_range (id : Z) (s : DB) :
  documents s !! id = None → int4 id = false →
  select_documents_where_id id s = db_throw integer_out_of_range s.
Proof. intros Hid Hrange. unfold select_documents_where_id. by rewrite Hid, Hrange. Qed.

Lemma update_absent (id : Z) (values : DocumentUpdate.t) (s : DB) :
  documents s !! id = None → int4 id = true →
  update_documents_where_id id values s = wrote [] s.
Proof. intros Hid Hrange. unfold update_documents_where_id. by rewrite Hid, Hrange. Qed.

Lemma update_out_of_range (id : Z) (values : DocumentUpdate.t) (s : DB) :
  documents s !! id = None → int4 id = false →
  update_documents_where_id id values s = db_throw integer_out_of_range s.
Proof. intros Hid Hrange. unfold update_documents_where_id. by rewrite Hid, Hrange. Qed.

Lemma update_mark (id : Z) (values : DocumentUpdate.t) (s : DB) (d : Document.t) :
  documents s !! id = Some d →
  update_documents_where_id id values s =
    wrote [set_document values d] (mark id values s).
Proof.
  intros Hid. unfold update_documents_where_id, mark. rewrite Hid.
  simpl. by rewrite lookup_alter_eq, Hid.
Qed.

Lemma update_present (id : Z) (values : DocumentUpdate.t) (s : DB) (d : Document.t) :
  documents s !! id = Some d →
  update_documents_where_id id values s =
    wrote [set_document values d]
      (with_documents s (<[id := set_document values d]> (documents s))).
Proof.
  intros Hid. unfold update_documents_where_id. rewrite Hid.
  assert (alter (set_document values) id (documents s)
          = <[id := set_document values d]> (documents s)) as ->.
  { apply map_eq. intros j. destruct (decide (id = j)) as [->|Hne].
    - by rewrite lookup_alter_eq, lookup_insert_eq, Hid.
    - by rewrite lookup_alter_ne, lookup_insert_ne. }
  simpl. by rewrite lookup_insert_eq.
Qed.

Lemma insert_transaction_ok (v : NewTransaction.t) (s : DB) (d : Document.t) :
  numeric_12_2 (NewTransaction.amount v) = true →
  transactions s !! transactions_id_seq s = None →
  documents s !! NewTransaction.document_id v = Some d →
  let row :=
    Transaction.mk (transactions_id_seq s)
      (NewTransaction.document_id v) (NewTransaction.transaction_date v)
      (NewTransaction.amount v) (NewTransaction.description v)
      (NewTransaction.account_number v) (NewTransaction.vendor_name v)
      (NewTransaction.transaction_type v) (db_now s) in
  insert_transaction v s =
    wrote row
      (mkDB (documents s) (<[transactions_id_seq s := row]> (transactions s))
         (documents_id_seq s) (transactions_id_seq s + 1) (db_now s)).
Proof.
  intros Hamount Hfresh Hdoc. unfold insert_transaction.
  by rewrite Hamount, Hfresh, Hdoc.
Qed.

(** An insert into the transactions table leaves the documents alone,
    whether it succeeds or is rejected. *)
Lemma insert_transaction_documents (v : NewTransaction.t) (s : DB) :
  documents (final (insert_transaction v s)) = documents s ∧
  Forall (λ w, documents w = documents s) (writes (insert_transaction v s)).
Proof.
  unfold insert_transaction.
  destruct (numeric_12_2 (NewTransaction.amount v)); simpl; [|by auto].
  destruct (transactions s !! transactions_id_seq s); simpl; [by auto|].
  destruct (documents s !! NewTransaction.document_id v); simpl; [by auto|].
  destruct (int4 (NewTransaction.document_id v)); simpl; by auto.
Qed.

Lemma saveTransactions_documents (documentId : Z)
    (extracted : list ExtractedTransactionData.t) :
  ∀ (saved : list Transaction.t) (s : DB),
    documents (final (saveTransactions documentId extracted saved s)) = documents s ∧
    Forall (λ w, documents w = documents s)
      (writes (saveTransactions documentId extracted saved s)).
Proof.
  induction extracted as [|x xs IH]; intros saved s; simpl; [by auto|].
  unfold bind.
  match goal with
  | |- context [insert_transaction ?v s] =>
      destruct (insert_transaction_documents v s) as [Hf Hw];
      destruct (insert_transaction v s) as [[t|e] s1 w1]
  end; simpl in *; [|by auto].
  destruct (IH (saved ++ [t])%list s1) as [Hf' Hw'].
  split; [congruence|].
  apply Forall_app. split; [done|].
  eapply Forall_impl; [exact Hw'|]. simpl. intros w Hw1. congruence.
Qed.

(** ** What [mark] changes *)

Lemma mark_lookup (id : Z) (values : DocumentUpdate.t) (s : DB) :
  documents (mark id values s) !! id = set_document values <$> documents s !! id.
Proof. unfold mark. simpl. by rewrite lookup_alter_eq. Qed.

Lemma mark_lookup_ne (id j : Z) (values : DocumentUpdate.t) (s : DB) :
  id ≠ j → documents (mark id values s) !! j = documents s !! j.
Proof. intros Hne. unfold mark. simpl. by rewrite lookup_alter_ne. Qed.

Lemma mark_transactions (id : Z) (values : DocumentUpdate.t) (s : DB) :
  transactions (mark id values s) = transactions s.
Proof. reflexivity. Qed.

Lemma sequences_ahead_fresh (s : DB) (k : Z) :
  sequences_ahead s → transactions_id_seq s ≤ k → transactions s !! k = None.
Proof.
  intros [_ Hseq] Hk.
  destruct (transactions s !! k) as [t|] eqn:Ht; [|reflexivity].
  apply Hseq in Ht. lia.
Qed.

Lemma sequences_ahead_fresh_document (s : DB) (k : Z) :
  sequences_ahead s → documents_id_seq s ≤ k → documents s !! k = None.
Proof.
  intros [Hseq _] Hk.
  destruct (documents s !! k) as [d|] eqn:Hd; [|reflexivity].
  apply Hseq in Hd. lia.
Qed.

Lemma extract_and_save_documents (documentId : Z) (document : Document.t) (s : DB) :
  documents (final (extract_and_save documentId document s)) = documents s ∧
  Forall (λ w, documents w = documents s)
    (writes (extract_and_save documentId document s)).
Proof.
  unfold extract_and_save, extractTransactionsFromDocument.
  destruct (includes "empty" (Document.filename document)).
  { erewrite bind_Returned; [|reflexivity]. rewrite after_no_writes.
    apply saveTransactions_documents. }
  destruct (includes "error" (Document.filename document)).
  { erewrite bind_Threw; [|reflexivity]. simpl. by auto. }
  erewrite bind_Returned; [|reflexivity]. rewrite after_no_writes.
  apply saveTransactions_documents.
Qed.

(** The run of [processDocument] on a document of the store, in terms of
    the run of its middle steps. *)
Lemma processDocument_existing (s : DB) (documentId : Z) (document : Document.t) :
  documents s !! documentId = Some document →
  let s1 := mark documentId set_processing s in
  let r := extract_and_save documentId document s1 in
  processDocument documentId s =
    match outcome r with
    | Returned saved =>
        let s2 := mark documentId set_completed (final r) in
        mkRun (Returned saved) s2 ([s1] ++ writes r ++ [s2])
    | Threw e =>
        let s2 := mark documentId (set_failed e) (final r) in
        mkRun (Threw e) s2 ([s1] ++ writes r ++ [s2])
    end.
Proof.
  intros Hdoc s1 r.
  assert (Hdoc2 : documents (final r) !! documentId
                  = Some (set_document set_processing document)).
  { subst r. rewrite (proj1 (extract_and_save_documents _ _ _)).
    subst s1. by rewrite mark_lookup, Hdoc. }
  assert (Hbody :
    bind (select_documents_where_id documentId)
      (λ documents,
         match documents with
         | [] =>
             throw (ErrorObj ("Document with ID " +:+ show documentId +:+ " not found"))
         | document :: _ =>
             run* update_documents_where_id documentId
                    (DocumentUpdate.mk (Some processing) (Some None)) in
             let* extractedTransactions := extractTransactionsFromDocument document in
             let* savedTransactions :=
               saveTransactions documentId extractedTransactions [] in
             run* update_documents_where_id documentId
                    (DocumentUpdate.mk (Some completed) (Some None)) in
             ret savedTransactions
         end) s
    = match outcome r with
      | Returned saved =>
          let s2 := mark documentId set_completed (final r) in
          mkRun (Returned saved) s2 ([s1] ++ writes r ++ [s2])
      | Threw e => mkRun (Threw e) (final r) ([s1] ++ writes r)
      end).
  { erewrite bind_Returned; last by apply (select_present _ _ _ Hdoc).
    rewrite after_no_writes. cbv beta iota.
    erewrite (bind_Returned (update_documents_where_id documentId _));
      last by apply (update_mark _ _ _ _ Hdoc).
    rewrite (bind_assoc (extractTransactionsFromDocument document)
               (λ ex, saveTransactions documentId ex [])).
    fold (extract_and_save documentId document).
    change (mark documentId _ s) with s1.
    unfold bind at 1. fold r. clearbody r.
    destruct r as [[saved|e] s2 w2]; simpl in Hdoc2 |- *; [|reflexivity].
    erewrite bind_Returned; last by apply (update_mark _ _ _ _ Hdoc2).
    reflexivity. }
  unfold processDocument. clearbody r.
  destruct r as [[saved|e] s2 w2]; simpl in Hdoc2, Hbody |- *.
  - erewrite try_Returned; [reflexivity|exact Hbody].
  - erewrite try_Threw; [|exact Hbody].
    erewrite bind_Returned; last by apply (update_mark _ _ _ _ Hdoc2).
    reflexivity.
Qed.

(** On an id without a row the [select] answers with no row, or the engine
    turns the id down; in the one case the [update] of the [catch] block
    finds no row either, in the other it is turned down too, and its error
    is the one that reaches the caller. *)
Lemma processDocument_missing (s : DB) (documentId : Z) :
  documents s !! documentId = None →
  processDocument documentId s =
    if int4 documentId then
      mkRun (Threw (ErrorObj ("Document with ID " +:+ show documentId +:+ " not found")))
        s [s]
    else db_throw integer_out_of_range s.
Proof.
  intros Hdoc. unfold processDocument.
  destruct (int4 documentId) eqn:Hrange.
  - erewrite try_Threw; last first.
    { erewrite bind_Returned; last by apply select_absent.
      rewrite after_no_writes. reflexivity. }
    erewrite bind_Returned; last by apply update_absent.
    reflexivity.
  - erewrite try_Threw; last first.
    { erewrite bind_Threw; [reflexivity|]. by apply select_out_of_range. }
    erewrite bind_Threw; [reflexivity|]. by apply update_out_of_range.
Qed.

(** ** The middle steps of [processDocument], case by case *)

Lemma extract_and_save_empty (documentId : Z) (document : Document.t) (s : DB) :
  includes "empty" (Document.filename document) = true →
  extract_and_save documentId document s = mkRun (Returned []) s [].
Proof.
  intros Hempty. unfold extract_and_save, extractTransactionsFromDocument.
  by rewrite Hempty.
Qed.

Lemma extract_and_save_error (documentId : Z) (document : Document.t) (s : DB) :
  includes "empty" (Document.filename document) = false →
  includes "error" (Document.filename document) = true →
  extract_and_save documentId document s =
    mkRun (Threw (ErrorObj "PDF parsing failed - corrupted file")) s [].
Proof.
  intros Hempty Herror. unfold extract_and_save, extractTransactionsFromDocument.
  by rewrite Hempty, Herror.
Qed.

Lemma extract_and_save_mock (documentId : Z) (document d : Document.t) (s : DB) :
  includes "empty" (Document.filename document) = false →
  includes "error" (Document.filename document) = false →
  documents s !! documentId = Some d →
  transactions s !! transactions_id_seq s = None →
  transactions s !! (transactions_id_seq s + 1) = None →
  let n := transactions_id_seq s in
  let t1 := mock_row_1 n documentId (db_now s) in
  let t2 := mock_row_2 (n + 1) documentId (db_now s) in
  let s1 :=
    mkDB (documents s) (<[n := t1]> (transactions s))
      (documents_id_seq s) (n + 1) (db_now s) in
  let s2 :=
    mkDB (documents s) (<[n + 1 := t2]> (<[n := t1]> (transactions s)))
      (documents_id_seq s) (n + 1 + 1) (db_now s) in
  extract_and_save documentId document s = mkRun (Returned [t1; t2]) s2 [s1; s2].
Proof.
  intros Hempty Herror Hdoc Hn Hn1 n t1 t2 s1 s2.
  unfold extract_and_save, extractTransactionsFromDocument.
  rewrite Hempty, Herror.
  erewrite bind_Returned; [|reflexivity]. rewrite after_no_writes.
  unfold mockTransactions, saveTransactions.
  erewrite bind_Returned; last first.
  { eapply insert_transaction_ok; [reflexivity|exact Hn|exact Hdoc]. }
  simpl NewTransaction.document_id. fold n. fold t1. fold s1.
  erewrite bind_Returned; last first.
  { eapply (insert_transaction_ok _ s1 d); [reflexivity|..]; simpl.
    - rewrite lookup_insert_ne by lia. exact Hn1.
    - exact Hdoc. }
  reflexivity.
Qed.

(** ** C1 *)

(** C1.  For a document of the store, what [processDocument] extracts is
    decided by substrings of the stored filename: with ["empty"] in it the
    answer is the empty list and no transaction is inserted; otherwise, with
    ["error"] in it, the call throws; otherwise the answer is exactly the
    two mock transactions (-150.75 'ATM Withdrawal' debit and 2500.00
    'Direct Deposit Salary' credit), both inserted under the id of the
    given document. *)
Theorem processDocument_keyed_on_filename
    (s : DB) (documentId : Z) (document : Document.t) :
  sequences_ahead s →
  documents s !! documentId = Some document →
  let r := processDocument documentId s in
  let n := transactions_id_seq s in
  if includes "empty" (Document.filename document) then
    outcome r = Returned [] ∧ transactions (final r) = transactions s
  else if includes "error" (Document.filename document) then
    outcome r = Threw (ErrorObj "PDF parsing failed - corrupted file") ∧
    transactions (final r) = transactions s
  else
    let t1 :=
      Transaction.mk n documentId date_2024_01_15 (-15075) "ATM Withdrawal"
        (Some "****1234") (Some "Chase ATM") (Some debit) (db_now s) in
    let t2 :=
      Transaction.mk (n + 1) documentId date_2024_01_16 250000
        "Direct Deposit Salary"
        (Some "****1234") (Some "ACME Corp") (Some credit) (db_now s) in
    outcome r = Returned [t1; t2] ∧
    Transaction.document_id t1 = documentId ∧
    Transaction.document_id t2 = documentId ∧
    transactions (final r) = <[n + 1 := t2]> (<[n := t1]> (transactions s)).
Proof.
  intros Hseq Hdoc r n. subst r.
  rewrite (processDocument_existing _ _ _ Hdoc). cbv zeta.
  destruct (includes "empty" (Document.filename document)) eqn:Hempty.
  { rewrite extract_and_save_empty by done. simpl. done. }
  destruct (includes "error" (Document.filename document)) eqn:Herror.
  { rewrite extract_and_save_error by done. simpl. done. }
  erewrite extract_and_save_mock; try done.
  - rewrite mark_lookup, Hdoc. reflexivity.
  - rewrite mark_transactions. apply sequences_ahead_fresh; [done|]. simpl. lia.
  - rewrite mark_transactions. apply sequences_ahead_fresh; [done|]. simpl. lia.
Qed.

Lemma processDocument_keyed_on_filename_witness :
  sequences_ahead sample_store ∧
  documents sample_store !! 1 = Some (sample_document 1 "test-document.pdf") ∧
  outcome (processDocument 1 sample_store) =
    Returned [ mock_row_1 1 1 1700000000500; mock_row_2 2 1 1700000000500 ].
Proof.
  assert (H1 : sequences_ahead sample_store)
    by (apply (bool_decide_unpack _); vm_compute; exact I).
  assert (H2 : documents sample_store !! 1
               = Some (sample_document 1 "test-document.pdf")) by reflexivity.
  split; [exact H1|]. split; [exact H2|].
  exact (proj1 (processDocument_keyed_on_filename sample_store 1 _ H1 H2)).
Defined.

(** ** C2 *)

Lemma stored_status_mark (id : Z) (values : DocumentUpdate.t) (s s0 : DB)
    (d : Document.t) (status : ProcessingStatus) (message : option string) :
  documents s = documents s0 →
  documents s0 !! id = Some d →
  DocumentUpdate.processing_status values = Some status →
  DocumentUpdate.error_message values = Some message →
  stored_status id (mark id values s) = Some (status, message).
Proof.
  intros Hs Hd Hstatus Hmessage. unfold stored_status.
  rewrite mark_lookup, Hs, Hd. simpl. by rewrite Hstatus, Hmessage.
Qed.

(** C2.  On a document of the store [processDocument] first stores the
    status 'processing' with a null error message, and that is what every
    write but the last stores; the last write, which leaves the final store,
    stores 'completed' with a null error message when the call returns and
    'failed' when it throws.  No write of the call stores any other
    status. *)
Theorem processDocument_status_progression
    (s : DB) (documentId : Z) (document : Document.t) :
  documents s !! documentId = Some document →
  let r := processDocument documentId s in
  ∃ first middle,
    writes r = (first :: middle ++ [final r])%list ∧
    Forall (λ w, stored_status documentId w = Some (processing, None))
      (first :: middle) ∧
    match outcome r with
    | Returned _ => stored_status documentId (final r) = Some (completed, None)
    | Threw e =>
        stored_status documentId (final r)
          = Some (failed, Some (processing_error_message e))
    end ∧
    Forall (λ w, ∃ status message,
                   stored_status documentId w = Some (status, message) ∧
                   (status = processing ∨ status = completed ∨ status = failed))
      (writes r).
Proof.
  intros Hdoc r. subst r.
  rewrite (processDocument_existing _ _ _ Hdoc). cbv zeta.
  set (s1 := mark documentId set_processing s).
  assert (Hs1 : stored_status documentId s1 = Some (processing, None)).
  { subst s1. by eapply stored_status_mark. }
  assert (Hd1 : ∃ d1, documents s1 !! documentId = Some d1).
  { subst s1. rewrite mark_lookup, Hdoc. by eexists. }
  destruct Hd1 as [d1 Hd1].
  destruct (extract_and_save_documents documentId document s1) as [Hfinal Hwrites].
  set (r := extract_and_save documentId document s1) in *. clearbody r.
  assert (Hmiddle :
    Forall (λ w, stored_status documentId w = Some (processing, None))
      (s1 :: writes r)).
  { constructor; [exact Hs1|].
    eapply Forall_impl; [exact Hwrites|]. simpl. intros w Hw.
    unfold stored_status in *. by rewrite Hw. }
  assert (Hlast : ∀ values status message,
    DocumentUpdate.processing_status values = Some status →
    DocumentUpdate.error_message values = Some message →
    stored_status documentId (mark documentId values (final r))
      = Some (status, message)).
  { intros values status message Hst Hmsg.
    by eapply stored_status_mark. }
  destruct r as [[saved|e] s2 w2]; simpl in *.
  - exists s1, w2. split; [reflexivity|]. split; [exact Hmiddle|].
    split; [by apply Hlast|].
    constructor; [by eauto 6|].
    apply Forall_app. split.
    + apply Forall_cons in Hmiddle as [_ Hmiddle].
      eapply Forall_impl; [exact Hmiddle|]. simpl. by eauto 6.
    + constructor; [|constructor].
      eexists completed, None. split; [by apply Hlast|by auto].
  - exists s1, w2. split; [reflexivity|]. split; [exact Hmiddle|].
    split; [by apply Hlast|].
    constructor; [by eauto 6|].
    apply Forall_app. split.
    + apply Forall_cons in Hmiddle as [_ Hmiddle].
      eapply Forall_impl; [exact Hmiddle|]. simpl. by eauto 6.
    + constructor; [|constructor].
      eexists failed, _. split; [by apply Hlast|by auto].
Qed.

Lemma processDocument_status_progression_witness :
  documents sample_store !! 3 = Some (sample_document 3 "error-document.pdf") ∧
  ∃ first middle,
    writes (processDocument 3 sample_store)
      = (first :: middle ++ [final (processDocument 3 sample_store)])%list ∧
    Forall (λ w, stored_status 3 w = Some (processing, None)) (first :: middle) ∧
    stored_status 3 (final (processDocument 3 sample_store))
      = Some (failed, Some "PDF parsing failed - corrupted file").
Proof.
  assert (H : documents sample_store !! 3
              = Some (sample_document 3 "error-document.pdf")) by reflexivity.
  split; [exact H|].
  destruct (processDocument_status_progression sample_store 3 _ H)
    as (first & middle & Hwrites & Hmiddle & Hlast & _).
  exists first, middle. split; [exact Hwrites|]. split; [exact Hmiddle|].
  exact Hlast.
Defined.

(** ** C3 *)

(** The whole run of [processDocument] on a document of the store. *)
Lemma processDocument_run (s : DB) (documentId : Z) (document : Document.t) :
  sequences_ahead s →
  documents s !! documentId = Some document →
  let s1 := mark documentId set_processing s in
  processDocument documentId s =
    if includes "empty" (Document.filename document) then
      let s2 := mark documentId set_completed s1 in
      mkRun (Returned []) s2 [s1; s2]
    else if includes "error" (Document.filename document) then
      let e := ErrorObj "PDF parsing failed - corrupted file" in
      let s2 := mark documentId (set_failed e) s1 in
      mkRun (Threw e) s2 [s1; s2]
    else
      let n := transactions_id_seq s in
      let t1 := mock_row_1 n documentId (db_now s) in
      let t2 := mock_row_2 (n + 1) documentId (db_now s) in
      let sa :=
        mkDB (documents s1) (<[n := t1]> (transactions s))
          (documents_id_seq s) (n + 1) (db_now s) in
      let sb :=
        mkDB (documents s1) (<[n + 1 := t2]> (<[n := t1]> (transactions s)))
          (documents_id_seq s) (n + 1 + 1) (db_now s) in
      let s2 := mark documentId set_completed sb in
      mkRun (Returned [t1; t2]) s2 [s1; sa; sb; s2].
Proof.
  intros Hseq Hdoc s1.
  rewrite (processDocument_existing _ _ _ Hdoc). cbv zeta. fold s1.
  destruct (includes "empty" (Document.filename document)) eqn:Hempty.
  { by rewrite extract_and_save_empty. }
  destruct (includes "error" (Document.filename document)) eqn:Herror.
  { by rewrite extract_and_save_error. }
  erewrite extract_and_save_mock; try done.
  - subst s1. rewrite mark_lookup, Hdoc. reflexivity.
  - apply (sequences_ahead_fresh s); [done|]. simpl. lia.
  - apply (sequences_ahead_fresh s); [done|]. simpl. lia.
Qed.

(** C3, as stated, fails: the document of id 4 exists and its filename
    ["empty-error.pdf"] contains ["error"], yet [processDocument] returns,
    because ["empty"] is looked for first. *)
Lemma processDocument_raises_iff_counterexample :
  ¬ ((∃ e, outcome (processDocument 4 sample_store) = Threw e) ↔
     (documents sample_store !! 4 = None ∨
      ∃ d, documents sample_store !! 4 = Some d ∧
           includes "error" (Document.filename d) = true)).
Proof.
  intros [_ Hraise].
  destruct Hraise as [e He].
  - right. exists (sample_document 4 "empty-error.pdf"). split; reflexivity.
  - vm_compute in He. discriminate He.
Qed.

(** C3, amended.  [processDocument] raises exactly when the document does
    not exist, or its filename contains ["error"] and does not contain
    ["empty"].  In a raising run an error reaches the caller.  When the
    document exists it is the error of the extraction, rethrown after the
    row has stored the status 'failed' and, as error message, the message
    of the error ('Unknown processing error' for a value that is not an
    [Error]).  When the document does not exist the store is left as it
    was, and the error is 'Document with ID <id> not found' for an id that
    the 32-bit column can hold, the engine's range error for any other.  In
    a run that does not raise, the answer is the list of the saved
    transactions: the rows the call added to the table. *)
Theorem processDocument_raises_iff (s : DB) (documentId : Z) :
  sequences_ahead s →
  let r := processDocument documentId s in
  ((∃ e, outcome r = Threw e) ↔
   (documents s !! documentId = None ∨
    ∃ d, documents s !! documentId = Some d ∧
         includes "empty" (Document.filename d) = false ∧
         includes "error" (Document.filename d) = true)) ∧
  (∀ e, outcome r = Threw e →
     match documents s !! documentId with
     | None =>
         e = (if int4 documentId then
                ErrorObj ("Document with ID " +:+ show documentId +:+ " not found")
              else EngineError integer_out_of_range) ∧
         final r = s
     | Some _ =>
         e = ErrorObj "PDF parsing failed - corrupted file" ∧
         stored_status documentId (final r)
           = Some (failed, Some (processing_error_message e))
     end) ∧
  (∀ saved, outcome r = Returned saved →
     transactions (final r)
       = foldl (λ table t, <[Transaction.id t := t]> table) (transactions s) saved).
Proof.
  intros Hseq r. subst r.
  destruct (documents s !! documentId) as [d|] eqn:Hdoc.
  - rewrite (processDocument_run _ _ _ Hseq Hdoc). cbv zeta.
    destruct (includes "empty" (Document.filename d)) eqn:Hempty;
      [|destruct (includes "error" (Document.filename d)) eqn:Herror]; simpl.
    + split; [|split; [by intros e [=]|by intros saved [= <-]]].
      split; [by intros [e [=]]|].
      intros [[=]|(d' & [= <-] & Hempty' & _)]. congruence.
    + split; [|split; [|by intros saved [=]]].
      * split; [|by eauto]. intros _. right. by exists d.
      * intros e [= <-]. split; [reflexivity|].
        eapply stored_status_mark; [reflexivity| |reflexivity|reflexivity].
        rewrite mark_lookup, Hdoc. reflexivity.
    + split; [|split; [by intros e [=]|by intros saved [= <-]]].
      split; [by intros [e [=]]|].
      intros [[=]|(d' & [= <-] & _ & Herror')]. congruence.
  - rewrite (processDocument_missing _ _ Hdoc).
    destruct (int4 documentId); simpl.
    + split; [|split; [|by intros saved [=]]].
      * split; [by auto|by eauto].
      * by intros e [= <-].
    + split; [|split; [|by intros saved [=]]].
      * split; [by auto|by eauto].
      * by intros e [= <-].
Qed.

Lemma processDocument_raises_iff_witness :
  sequences_ahead sample_store ∧
  outcome (processDocument 3 sample_store)
    = Threw (ErrorObj "PDF parsing failed - corrupted file") ∧
  stored_status 3 (final (processDocument 3 sample_store))
    = Some (failed, Some "PDF parsing failed - corrupted file").
Proof.
  assert (H : sequences_ahead sample_store)
    by (apply (bool_decide_unpack _); vm_compute; exact I).
  split; [exact H|].
  destruct (processDocument_raises_iff sample_store 3 H) as (_ & Hraise & _).
  destruct (Hraise (ErrorObj "PDF parsing failed - corrupted file") eq_refl)
    as [_ Hstored].
  split; [reflexivity|exact Hstored].
Defined.

(** ** C9 *)

(** C9, as stated, fails for an id that the 32-bit column cannot hold: no
    document has the id 2147483648, and the call throws the engine's range
    error, not 'Document with id 2147483648 not found'. *)
Lemma updateDocumentStatus_error_message_counterexample :
  documents sample_store !! 2147483648 = None ∧
  outcome (updateDocumentStatus
             (UpdateDocumentStatusInput.mk 2147483648 completed None)
             sample_store)
    ≠ Threw (ErrorObj "Document with id 2147483648 not found").
Proof. split; [reflexivity|]. vm_compute. discriminate. Qed.

(** C9, amended.  On a document of the store [updateDocumentStatus] stores
    the new status; with a status other than 'failed' the stored error
    message becomes null; with 'failed' it becomes the message of the input
    when the input has the key (null included) and stays what it was
    otherwise.  The row so updated is the answer.  For an id without a row
    the store is as before, and the call throws 'Document with id <id> not
    found' when the 32-bit column can hold the id, the engine's range error
    when it cannot.  The message of the input is text that the column
    takes. *)
Theorem updateDocumentStatus_error_message
    (s : DB) (input : UpdateDocumentStatusInput.t) :
  storable_message input = true →
  let id := UpdateDocumentStatusInput.id input in
  let status := UpdateDocumentStatusInput.processing_status input in
  let r := updateDocumentStatus input s in
  match documents s !! id with
  | Some d =>
      ∃ d',
        outcome r = Returned d' ∧
        documents (final r) = <[id := d']> (documents s) ∧
        Document.processing_status d' = status ∧
        Document.error_message d' =
          (if decide (status = failed) then
             match UpdateDocumentStatusInput.error_message input with
             | Some message => message
             | None => Document.error_message d
             end
           else None)
  | None =>
      outcome r =
        Threw (if int4 id then
                 ErrorObj ("Document with id " +:+ show id +:+ " not found")
               else EngineError integer_out_of_range) ∧
      final r = s
  end.
Proof.
  intros _ id status r. subst r. unfold updateDocumentStatus.
  rewrite rethrow. cbv zeta. fold id. fold status.
  destruct (documents s !! id) as [d|] eqn:Hdoc.
  - erewrite bind_Returned; last by apply (update_present _ _ _ _ Hdoc).
    eexists. split; [reflexivity|]. split; [reflexivity|].
    destruct status; simpl; done.
  - destruct (int4 id) eqn:Hrange.
    + erewrite bind_Returned; last by apply (update_absent _ _ _ Hdoc).
      done.
    + erewrite bind_Threw; last by apply (update_out_of_range _ _ _ Hdoc).
      done.
Qed.

Lemma updateDocumentStatus_error_message_witness :
  let input :=
    UpdateDocumentStatusInput.mk 1 failed (Some (Some "Unreadable scan")) in
  storable_message input = true ∧
  ∃ d, outcome (updateDocumentStatus input sample_store) = Returned d ∧
       Document.processing_status d = failed ∧
       Document.error_message d = Some "Unreadable scan".
Proof.
  intros input.
  assert (H : storable_message input = true) by reflexivity.
  split; [exact H|].
  destruct (updateDocumentStatus_error_message sample_store input H)
    as (d & Hd & _ & Hstatus & Hmessage).
  exists d. split; [exact Hd|]. split; [exact Hstatus|exact Hmessage].
Defined.

(** ** C6 *)

Lemma prefix_append (p x : string) : String.prefix p (p +:+ x) = true.
Proof.
  induction p as [|a p IH]; simpl.
  - by destruct x.
  - by destruct (ascii_dec a a).
Qed.

(** C6, as stated, fails for a file size that the 32-bit column cannot
    hold: the input below passes the schema of the route, and the insert is
    turned down, so that the call throws and no row is stored. *)
Lemma uploadDocument_pending_counterexample :
  let input :=
    UploadDocumentInput.mk "statement.pdf" "statement.pdf" 2147483648
      "application/pdf" in
  let r := uploadDocument input 1700000000123 "k3x9qa" sample_store in
  uploadDocumentInputSchema input = parse_success input ∧
  sequences_ahead sample_store ∧
  (¬ ∃ d, outcome r = Returned d) ∧
  final r = sample_store.
Proof.
  intros input r. split; [reflexivity|]. split.
  { apply (bool_decide_unpack _). vm_compute. exact I. }
  split; [|reflexivity]. intros [d Hd]. vm_compute in Hd. discriminate Hd.
Qed.

(** C6, amended.  For an input whose texts the columns take: with a file
    size that the 32-bit column can hold, [uploadDocument] inserts one
    document row and answers with it: status
    'pending', null error message, the original name, file size and MIME
    type of the input, and as filename [doc_<timestamp>_<random>.pdf],
    built from the clock and the random suffix alone.  The filename of the
    input plays no part: another one gives the same run, and the stored
    filename differs from it whenever it does not itself start with
    [doc_].  With any other file size the call throws the engine's range
    error and stores nothing. *)
Theorem uploadDocument_pending
    (s : DB) (input : UploadDocumentInput.t) (timestamp : Z) (randomSuffix : string) :
  sequences_ahead s →
  storable_text (UploadDocumentInput.original_name input) = true →
  storable_text (UploadDocumentInput.mime_type input) = true →
  let r := uploadDocument input timestamp randomSuffix s in
  (int4 (UploadDocumentInput.file_size input) = true →
   ∃ d,
     outcome r = Returned d ∧
     documents s !! Document.id d = None ∧
     documents (final r) = <[Document.id d := d]> (documents s) ∧
     transactions (final r) = transactions s ∧
     Document.processing_status d = pending ∧
     Document.error_message d = None ∧
     Document.original_name d = UploadDocumentInput.original_name input ∧
     Document.file_size d = UploadDocumentInput.file_size input ∧
     Document.mime_type d = UploadDocumentInput.mime_type input ∧
     Document.filename d
       = "doc_" +:+ show timestamp +:+ "_" +:+ randomSuffix +:+ ".pdf" ∧
     (∀ filename',
        uploadDocument
          (UploadDocumentInput.mk filename'
             (UploadDocumentInput.original_name input)
             (UploadDocumentInput.file_size input)
             (UploadDocumentInput.mime_type input))
          timestamp randomSuffix s = r) ∧
     (String.prefix "doc_" (UploadDocumentInput.filename input) = false →
      Document.filename d ≠ UploadDocumentInput.filename input)) ∧
  (int4 (UploadDocumentInput.file_size input) = false →
   outcome r = Threw (EngineError integer_out_of_range) ∧
   final r = s ∧ writes r = []).
Proof.
  intros Hseq _ _ r. subst r. unfold uploadDocument. rewrite rethrow. cbv zeta.
  pose proof (sequences_ahead_fresh_document s (documents_id_seq s) Hseq
                ltac:(reflexivity)) as Hfresh.
  split; intros Hrange.
  - unfold bind, insert_document. simpl NewDocument.file_size.
    rewrite Hrange, Hfresh. simpl.
    eexists. split; [reflexivity|]. simpl.
    repeat (split; [done|]).
    split.
    + intros filename'. rewrite rethrow. unfold bind, insert_document.
      simpl NewDocument.file_size. simpl UploadDocumentInput.file_size.
      by rewrite ?Hrange, Hfresh.
    + intros Hprefix Heq. rewrite <- Heq, prefix_append in Hprefix.
      discriminate Hprefix.
  - unfold bind, insert_document. simpl NewDocument.file_size.
    by rewrite Hrange.
Qed.

Lemma uploadDocument_pending_witness :
  sequences_ahead sample_store ∧
  outcome
    (uploadDocument
       (UploadDocumentInput.mk "test-document.pdf" "bank-statement-2024.pdf"
          2048000 "application/pdf")
       1700000000123 "k3x9qa" sample_store)
  = Returned
      (Document.mk 5 "doc_1700000000123_k3x9qa.pdf" "bank-statement-2024.pdf"
         2048000 "application/pdf" 1700000000500 pending None).
Proof.
  assert (H : sequences_ahead sample_store)
    by (apply (bool_decide_unpack _); vm_compute; exact I).
  split; [exact H|].
  destruct (proj1 (uploadDocument_pending sample_store
                     (UploadDocumentInput.mk "test-document.pdf"
                        "bank-statement-2024.pdf" 2048000 "application/pdf")
                     1700000000123 "k3x9qa" H eq_refl eq_refl) eq_refl)
    as (d & Hd & _).
  rewrite Hd. vm_compute in Hd. injection Hd as <-. reflexivity.
Defined.

(** ** C5 *)

(** C5 does not hold of the source.  [updateTransaction] reads nothing and
    writes nothing: whatever the store, its answer has [document_id] 1 and
    as [created_at] the time of the call, and the store is left as it was.
    On [processed_store] the transaction 7 belongs to document 2 and was
    created at 1700000000500; asked to change its description, the handler
    answers with document 1 and the time of the call, and the row keeps its
    old description.  An id without a row gets an answer too. *)
Theorem updateTransaction_is_a_placeholder :
  (∀ (s : DB) (input : UpdateTransactionInput.t) (now_date now_created : Z),
     let r := updateTransaction input now_date now_created s in
     final r = s ∧ writes r = [] ∧
     ∃ t, outcome r = Returned t ∧
          Transaction.document_id t = 1 ∧
          Transaction.created_at t = now_created) ∧
  (let input :=
     UpdateTransactionInput.mk 7 None None (Some "Cash withdrawal") None None None in
   let r := updateTransaction input 1700000001000 1700000001001 processed_store in
   transactions processed_store !! 7 = Some (mock_row_1 7 2 1700000000500) ∧
   outcome r =
     Returned (Transaction.mk 7 1 1700000001000 0 "Cash withdrawal"
                 None None None 1700000001001) ∧
   transactions (final r) !! 7 = Some (mock_row_1 7 2 1700000000500)) ∧
  (let input :=
     UpdateTransactionInput.mk 99 None None (Some "Cash withdrawal") None None None in
   let r := updateTransaction input 1700000001000 1700000001001 processed_store in
   transactions processed_store !! 99 = None ∧
   ∃ t, outcome r = Returned t).
Proof.
  split; [|split].
  - intros s input now_date now_created. simpl.
    split; [reflexivity|]. split; [reflexivity|].
    eexists. split; [reflexivity|]. by split.
  - by vm_compute.
  - split; [reflexivity|]. by eexists.
Qed.

(** ** Invariants: from the statements to the handlers *)

Create HintDb preserves discriminated.

Section preservation.
Context {A : Type} (P : DB → Prop).

Lemma preserves_ret (a : A) : preserves P (ret a).
Proof. intros s Hs. simpl. by auto. Qed.

Lemma preserves_throw (e : Thrown) : preserves P (@throw A e).
Proof. intros s Hs. simpl. by auto. Qed.

Lemma preserves_db_throw (e : DbError) : preserves P (@db_throw A e).
Proof. apply preserves_throw. Qed.

Lemma preserves_query (q : DB → A) : preserves P (query q).
Proof. intros s Hs. simpl. by auto. Qed.

Lemma preserves_try_catch (m : Handler A) (h : Thrown → Handler A) :
  preserves P m → (∀ e, preserves P (h e)) → preserves P (try_catch m h).
Proof.
  intros Hm Hh s Hs. unfold try_catch.
  destruct (Hm s Hs) as [Hf Hw].
  destruct (m s) as [[a|e] s1 w1]; simpl in *; [by auto|].
  destruct (Hh e s1 Hf) as [Hf' Hw'].
  split; [done|]. by apply Forall_app.
Qed.
End preservation.

Lemma preserves_bind {A B} (P : DB → Prop) (m : Handler A) (k : A → Handler B) :
  preserves P m → (∀ a, preserves P (k a)) → preserves P (bind m k).
Proof.
  intros Hm Hk s Hs. unfold bind.
  destruct (Hm s Hs) as [Hf Hw].
  destruct (m s) as [[a|e] s1 w1]; simpl in *; [|by auto].
  destruct (Hk a s1 Hf) as [Hf' Hw'].
  split; [done|]. by apply Forall_app.
Qed.

Lemma preserves_select (P : DB → Prop) (id : Z) :
  preserves P (select_documents_where_id id).
Proof.
  intros s Hs. unfold select_documents_where_id.
  destruct (documents s !! id); [by simpl; auto|].
  destruct (int4 id); simpl; by auto.
Qed.

#[export] Hint Resolve preserves_ret preserves_throw preserves_db_throw
  preserves_query preserves_try_catch preserves_bind preserves_select
  : preserves.

Section handlers_preserve.
Variable P : DB → Prop.
Hypothesis P_update :
  ∀ id values, preserves P (update_documents_where_id id values).
Hypothesis P_insert_document : ∀ v, preserves P (insert_document v).
Hypothesis P_insert_transaction : ∀ v, preserves P (insert_transaction v).
Hypothesis P_delete_documents : ∀ id, preserves P (delete_documents_where_id id).
Hypothesis P_delete_transactions :
  ∀ id, preserves P (delete_transactions_where_id id).

Local Hint Resolve P_update P_insert_document P_insert_transaction
  P_delete_documents P_delete_transactions : preserves.

Local Ltac step :=
  first
    [ apply preserves_try_catch
    | apply preserves_bind
    | progress intros
    | match goal with
      | |- preserves _ (match ?x with _ => _ end) => destruct x
      | |- preserves _ (if ?x then _ else _) => destruct x
      end
    | solve [auto with preserves] ].

Lemma saveTransactions_preserves (documentId : Z)
    (extracted : list ExtractedTransactionData.t) :
  ∀ saved, preserves P (saveTransactions documentId extracted saved).
Proof.
  induction extracted as [|x xs IH]; intros saved; simpl.
  - auto with preserves.
  - apply preserves_bind; [auto with preserves|]. intros t. apply IH.
Qed.

Lemma extractTransactionsFromDocument_preserves (document : Document.t) :
  preserves P (extractTransactionsFromDocument document).
Proof. unfold extractTransactionsFromDocument. repeat step. Qed.

Local Hint Resolve saveTransactions_preserves
  extractTransactionsFromDocument_preserves : preserves.

Lemma processDocument_preserves (documentId : Z) :
  preserves P (processDocument documentId).
Proof. unfold processDocument. repeat step. Qed.

Lemma updateDocumentStatus_preserves (input : UpdateDocumentStatusInput.t) :
  preserves P (updateDocumentStatus input).
Proof. unfold updateDocumentStatus. repeat step. Qed.

Lemma uploadDocument_preserves (input : UploadDocumentInput.t)
    (timestamp : Z) (randomSuffix : string) :
  preserves P (uploadDocument input timestamp randomSuffix).
Proof. unfold uploadDocument. repeat step. Qed.

Lemma createTransaction_preserves (input : CreateTransactionInput.t) :
  preserves P (createTransaction input).
Proof. unfold createTransaction. repeat step. Qed.

Lemma deleteTransaction_preserves (id : Z) : preserves P (deleteTransaction id).
Proof. unfold deleteTransaction. repeat step. Qed.

Lemma getDocuments_preserves : preserves P getDocuments.
Proof. unfold getDocuments. repeat step. Qed.

Lemma getTransactions_preserves : preserves P getTransactions.
Proof. unfold getTransactions. repeat step. Qed.

Lemma getDocumentTransactions_preserves (documentId : Z) :
  preserves P (getDocumentTransactions documentId).
Proof.
  unfold getDocumentTransactions. repeat step.
Qed.

Lemma execute_page_preserves conditions order limit offset :
  preserves P (execute_page conditions order limit offset).
Proof.
  intros s Hs. unfold execute_page.
  destruct (apply_where _ _); simpl; [|by auto].
  destruct (_ <? _); simpl; by auto.
Qed.

Lemma execute_count_preserves conditions :
  preserves P (execute_count conditions).
Proof.
  intros s Hs. unfold execute_count.
  destruct (apply_where _ _); simpl; by auto.
Qed.

Local Hint Resolve execute_page_preserves execute_count_preserves : preserves.

Lemma searchTransactions_preserves (input : SearchTransactionsInput.t) :
  preserves P (searchTransactions input).
Proof. unfold searchTransactions. repeat step. Qed.

Lemma updateTransaction_preserves input now_date now_created :
  preserves P (updateTransaction input now_date now_created).
Proof. unfold updateTransaction. repeat step. Qed.

(** Every operation keeps an invariant that the five data-changing
    statements keep. *)
Lemma after_preserves (op : Operation) (s : DB) : P s → P (after op s).
Proof.
  intros Hs.
  destruct op; simpl.
  - exact (proj1 (uploadDocument_preserves _ _ _ s Hs)).
  - exact (proj1 (getDocuments_preserves s Hs)).
  - exact (proj1 (updateDocumentStatus_preserves _ s Hs)).
  - exact (proj1 (processDocument_preserves _ s Hs)).
  - exact (proj1 (getDocumentTransactions_preserves _ s Hs)).
  - exact (proj1 (createTransaction_preserves _ s Hs)).
  - exact (proj1 (getTransactions_preserves s Hs)).
  - exact (proj1 (searchTransactions_preserves _ s Hs)).
  - exact (proj1 (updateTransaction_preserves input now_date now_created s Hs)).
  - exact (proj1 (deleteTransaction_preserves _ s Hs)).
  - exact (proj1 (P_delete_documents _ s Hs)).
Qed.
End handlers_preserve.

(** ** Referential integrity, statement by statement *)

Lemma wrote_preserves {A} (P : DB → Prop) (a : A) (s' : DB) :
  P s' → P (final (wrote a s')) ∧ Forall P (writes (wrote a s')).
Proof. intros Hs'. simpl. by auto. Qed.

(** An [update] keeps what the change of the one row keeps. *)
Lemma update_preserves (P : DB → Prop) (id : Z) (values : DocumentUpdate.t) :
  (∀ s, P s → P (mark id values s)) →
  preserves P (update_documents_where_id id values).
Proof.
  intros HP s Hs. unfold update_documents_where_id.
  destruct (documents s !! id).
  - apply wrote_preserves. by apply HP.
  - destruct (int4 id); [by apply wrote_preserves|by simpl; auto].
Qed.

Lemma integrity_update (id : Z) (values : DocumentUpdate.t) :
  preserves referential_integrity (update_documents_where_id id values).
Proof.
  apply update_preserves. intros s Hs.
  intros k t Ht. simpl in *. apply lookup_alter_is_Some. by apply (Hs k t).
Qed.

Lemma integrity_insert_document (v : NewDocument.t) :
  preserves referential_integrity (insert_document v).
Proof.
  intros s Hs. unfold insert_document.
  destruct (negb (int4 _)); [by simpl; auto|].
  destruct (documents s !! documents_id_seq s); [by simpl; auto|].
  apply wrote_preserves.
  intros k t Ht. simpl in *. apply lookup_insert_is_Some'. right. by apply (Hs k t).
Qed.

Lemma integrity_insert_transaction (v : NewTransaction.t) :
  preserves referential_integrity (insert_transaction v).
Proof.
  intros s Hs. unfold insert_transaction.
  destruct (negb (numeric_12_2 _)); [by simpl; auto|].
  destruct (transactions s !! transactions_id_seq s); [by simpl; auto|].
  destruct (documents s !! NewTransaction.document_id v) as [d|] eqn:Hd;
    [|by destruct (int4 _); simpl; auto].
  apply wrote_preserves.
  apply map_Forall_insert_2; simpl; [by rewrite Hd|exact Hs].
Qed.

Lemma integrity_delete_documents (id : Z) :
  preserves referential_integrity (delete_documents_where_id id).
Proof.
  intros s Hs. unfold delete_documents_where_id.
  destruct (documents s !! id) as [d|]; apply wrote_preserves; [|exact Hs].
  intros k t Ht. simpl in *.
  apply map_lookup_filter_Some in Ht as [Ht Hne]. simpl in Hne.
  rewrite lookup_delete_ne by done. by apply (Hs k t).
Qed.

Lemma integrity_delete_transactions (id : Z) :
  preserves referential_integrity (delete_transactions_where_id id).
Proof.
  intros s Hs. apply wrote_preserves.
  unfold referential_integrity. simpl. by apply map_Forall_delete.
Qed.

(** ** The sequences stay ahead, statement by statement *)

Lemma ahead_update (id : Z) (values : DocumentUpdate.t) :
  preserves sequences_ahead (update_documents_where_id id values).
Proof.
  apply update_preserves.
  intros s [Hd Ht]. split; simpl; [|exact Ht].
  intros k d' Hk.
  assert (is_Some (documents s !! k)) as [d Hd'].
  { apply (lookup_alter_is_Some (set_document values) _ id k). by rewrite Hk. }
  by apply (Hd k d).
Qed.

Lemma ahead_insert_document (v : NewDocument.t) :
  preserves sequences_ahead (insert_document v).
Proof.
  intros s Hs. unfold insert_document.
  destruct (negb (int4 _)); [by simpl; auto|].
  destruct (documents s !! documents_id_seq s); [by simpl; auto|].
  destruct Hs as [Hd Ht]. apply wrote_preserves. split; simpl; [|exact Ht].
  apply map_Forall_insert_2; [lia|].
  eapply map_Forall_impl; [exact Hd|]. simpl. intros; lia.
Qed.

Lemma ahead_insert_transaction (v : NewTransaction.t) :
  preserves sequences_ahead (insert_transaction v).
Proof.
  intros s Hs. unfold insert_transaction.
  destruct (negb (numeric_12_2 _)); [by simpl; auto|].
  destruct (transactions s !! transactions_id_seq s); [by simpl; auto|].
  destruct (documents s !! NewTransaction.document_id v);
    [|by destruct (int4 _); simpl; auto].
  destruct Hs as [Hd Ht]. apply wrote_preserves. split; simpl; [exact Hd|].
  apply map_Forall_insert_2; [lia|].
  eapply map_Forall_impl; [exact Ht|]. simpl. intros; lia.
Qed.

Lemma ahead_delete_documents (id : Z) :
  preserves sequences_ahead (delete_documents_where_id id).
Proof.
  intros s Hs. unfold delete_documents_where_id.
  destruct (documents s !! id) as [d|]; apply wrote_preserves; [|exact Hs].
  destruct Hs as [Hd Ht]. split; simpl.
  - by apply map_Forall_delete.
  - intros k t Hk. apply map_lookup_filter_Some in Hk as [Hk _]. by apply (Ht k t).
Qed.

Lemma ahead_delete_transactions (id : Z) :
  preserves sequences_ahead (delete_transactions_where_id id).
Proof.
  intros s [Hd Ht]. apply wrote_preserves. split; simpl; [exact Hd|].
  by apply map_Forall_delete.
Qed.

(** Every operation leaves the sequences ahead of the keys: the hypothesis
    of the statements about inserts holds along every run of the server. *)
Lemma sequences_ahead_after (op : Operation) (s : DB) :
  sequences_ahead s → sequences_ahead (after op s).
Proof.
  apply after_preserves;
    auto using ahead_update, ahead_insert_document, ahead_insert_transaction,
      ahead_delete_documents, ahead_delete_transactions.
Qed.

(** ** C7 *)

Lemma referential_integrity_after (op : Operation) (s : DB) :
  referential_integrity s → referential_integrity (after op s).
Proof.
  apply after_preserves;
    auto using integrity_update, integrity_insert_document,
      integrity_insert_transaction, integrity_delete_documents,
      integrity_delete_transactions.
Qed.

(** C7, as stated, fails for a document id that the 32-bit column cannot
    hold: no document has the id 2147483648, and [createTransaction] throws
    the engine's range error, not 'Document with ID 2147483648 not
    found'. *)
Lemma referential_integrity_invariant_counterexample :
  documents sample_store !! 2147483648 = None ∧
  outcome (createTransaction
             (CreateTransactionInput.mk 2147483648 1705276800000 (-4200)
                "Card payment" None None (Some debit))
             sample_store)
    ≠ Threw (ErrorObj "Document with ID 2147483648 not found").
Proof. split; [reflexivity|]. vm_compute. discriminate. Qed.

(** C7, amended.  Referential integrity is kept by every operation -- the
    ten routes, and the deletion of a document as the schema defines it --
    and so holds after any sequence of operations on a store that starts
    empty.  [createTransaction] on a document id without a row writes
    nothing; it throws 'Document with ID <id> not found' when the 32-bit
    column can hold the id, the engine's range error when it cannot.
    Deleting a document removes its row together with exactly the
    transactions that reference it. *)
Theorem referential_integrity_invariant :
  (∀ (op : Operation) (s : DB),
     referential_integrity s → referential_integrity (after op s)) ∧
  (∀ (ops : list Operation) (seq_d seq_t now : Z),
     referential_integrity
       (foldl (λ s op, after op s) (mkDB ∅ ∅ seq_d seq_t now) ops)) ∧
  (∀ (input : CreateTransactionInput.t) (s : DB),
     documents s !! CreateTransactionInput.document_id input = None →
     let r := createTransaction input s in
     outcome r =
       Threw (if int4 (CreateTransactionInput.document_id input) then
                ErrorObj ("Document with ID "
                          +:+ show (CreateTransactionInput.document_id input)
                          +:+ " not found")
              else EngineError integer_out_of_range) ∧
     final r = s ∧ writes r = []) ∧
  (∀ (id : Z) (s : DB) (d : Document.t),
     documents s !! id = Some d →
     let s' := after (op_deleteDocument id) s in
     documents s' = delete id (documents s) ∧
     ∀ k, transactions s' !! k =
            match transactions s !! k with
            | Some t =>
                if decide (Transaction.document_id t = id) then None else Some t
            | None => None
            end).
Proof.
  split; [exact referential_integrity_after|]. split; [|split].
  - intros ops seq_d seq_t now.
    assert (Hempty : referential_integrity (mkDB ∅ ∅ seq_d seq_t now))
      by apply map_Forall_empty.
    revert Hempty. generalize (mkDB ∅ ∅ seq_d seq_t now).
    induction ops as [|op ops IH]; intros s Hs; simpl; [exact Hs|].
    apply IH. by apply referential_integrity_after.
  - intros input s Hdoc r. subst r. unfold createTransaction.
    rewrite rethrow.
    destruct (int4 (CreateTransactionInput.document_id input)) eqn:Hrange.
    + erewrite bind_Returned; last by apply select_absent.
      done.
    + erewrite bind_Threw; last by apply select_out_of_range.
      done.
  - intros id s d Hdoc s'. subst s'. simpl.
    unfold delete_documents_where_id. rewrite Hdoc. simpl.
    split; [reflexivity|]. intros k.
    destruct (transactions s !! k) as [t|] eqn:Ht.
    + destruct (decide (Transaction.document_id t = id)) as [Heq|Hne].
      * apply map_lookup_filter_None. right. intros t' Ht'.
        rewrite Ht in Ht'. injection Ht' as <-. simpl. by auto.
      * apply map_lookup_filter_Some. by split.
    + apply map_lookup_filter_None. by left.
Qed.

Lemma referential_integrity_invariant_witness :
  referential_integrity processed_store ∧
  referential_integrity (after (op_deleteDocument 2) processed_store) ∧
  documents processed_store !! 2 = Some (sample_document 2 "statement.pdf") ∧
  transactions (after (op_deleteDocument 2) processed_store) !! 7 = None.
Proof.
  assert (H : referential_integrity processed_store)
    by (apply (bool_decide_unpack _); vm_compute; exact I).
  assert (Hd : documents processed_store !! 2
               = Some (sample_document 2 "statement.pdf")) by reflexivity.
  destruct referential_integrity_invariant as (Hstep & _ & _ & Hcascade).
  split; [exact H|]. split; [exact (Hstep _ _ H)|]. split; [exact Hd|].
  destruct (Hcascade 2 processed_store _ Hd) as [_ Hrows].
  rewrite (Hrows 7). reflexivity.
Defined.

(** ** C8 *)

(** C8.  For the id of a transaction of the store [deleteTransaction]
    removes exactly that row: the row of the id is gone, every other
    transaction row and every document row is as before, the table is one
    row shorter, and the answer is [{ success: true }].  For an id without
    a row it throws 'Transaction with id <id> not found' and the store is
    as before. *)
Theorem deleteTransaction_removes_one_row (s : DB) (id : Z) :
  let r := deleteTransaction id s in
  match transactions s !! id with
  | Some _ =>
      outcome r = Returned {| success := true |} ∧
      transactions (final r) !! id = None ∧
      (∀ k, k ≠ id → transactions (final r) !! k = transactions s !! k) ∧
      documents (final r) = documents s ∧
      S (size (transactions (final r))) = size (transactions s)
  | None =>
      outcome r = Threw (ErrorObj ("Transaction with id " +:+ show id +:+ " not found")) ∧
      final r = s
  end.
Proof.
  intros r. subst r. unfold deleteTransaction. rewrite rethrow.
  erewrite bind_Returned; [|reflexivity].
  destruct (transactions s !! id) as [t|] eqn:Ht; simpl.
  - split; [reflexivity|]. split; [by apply lookup_delete_eq|].
    split; [by intros k Hk; apply lookup_delete_ne|]. split; [reflexivity|].
    rewrite map_size_delete_Some by (by rewrite Ht).
    assert (size (transactions s) ≠ 0%nat).
    { intros Hsize. apply map_size_empty_iff in Hsize.
      rewrite Hsize, lookup_empty in Ht. discriminate Ht. }
    lia.
  - split; [reflexivity|]. rewrite delete_id by done. apply DB_eta.
Qed.

(** ** C10 *)

Lemma orderBy_Permutation {A} (R : relation A) `{!RelDecision R} (l : list A) :
  orderBy R l ≡ₚ l.
Proof. apply merge_sort_Permutation. Qed.

Lemma StronglySorted_weaken {A} (R R' : relation A) (l : list A) :
  (∀ a b, R a b → R' a b) → StronglySorted R l → StronglySorted R' l.
Proof.
  intros HR. induction 1 as [|a l Hl IH Ha]; constructor; [exact IH|].
  eapply Forall_impl; [exact Ha|]. exact (HR a).
Qed.

Section order_by_timestamp.
Context {A : Type} (column : A → Z).

Lemma asc_le (a b : A) : asc column a b ↔ column a ≤ column b.
Proof.
  unfold asc, sql_le, SqlOrd_Z. rewrite Is_true_true. apply Z.leb_le.
Qed.

Lemma desc_le (a b : A) : desc column a b ↔ column b ≤ column a.
Proof.
  unfold desc, sql_le, SqlOrd_Z. rewrite Is_true_true. apply Z.leb_le.
Qed.

#[local] Instance asc_total : Total (asc column).
Proof. intros a b. rewrite !asc_le. lia. Qed.

#[local] Instance asc_transitive : Transitive (asc column).
Proof. intros a b c. rewrite !asc_le. lia. Qed.

#[local] Instance desc_total : Total (desc column).
Proof. intros a b. rewrite !desc_le. lia. Qed.

#[local] Instance desc_transitive : Transitive (desc column).
Proof. intros a b c. rewrite !desc_le. lia. Qed.

Lemma orderBy_asc_sorted (l : list A) :
  StronglySorted (λ a b, column a ≤ column b) (orderBy (asc column) l).
Proof.
  apply (StronglySorted_weaken (asc column)); [by intros a b; apply asc_le|].
  apply StronglySorted_merge_sort; apply _.
Qed.

Lemma orderBy_desc_sorted (l : list A) :
  StronglySorted (λ a b, column b ≤ column a) (orderBy (desc column) l).
Proof.
  apply (StronglySorted_weaken (desc column)); [by intros a b; apply desc_le|].
  apply StronglySorted_merge_sort; apply _.
Qed.
End order_by_timestamp.

Lemma elem_of_rows {A} (table : gmap Z A) (x : A) :
  x ∈ rows table ↔ ∃ k, table !! k = Some x.
Proof.
  unfold rows. rewrite list_elem_of_fmap. split.
  - intros [[k y] [-> Hky]]. exists k. by apply elem_of_map_to_list.
  - intros [k Hk]. exists (k, x). split; [reflexivity|].
    by apply elem_of_map_to_list.
Qed.

(** C10, as stated, fails for a document id that the 32-bit column cannot
    hold: no document has the id 2147483648, and [getDocumentTransactions]
    throws the engine's range error, not 'Document with ID 2147483648 not
    found'. *)
Lemma list_operations_ordered_counterexample :
  documents sample_store !! 2147483648 = None ∧
  outcome (getDocumentTransactions 2147483648 sample_store)
    ≠ Threw (ErrorObj "Document with ID 2147483648 not found").
Proof. split; [reflexivity|]. vm_compute. discriminate. Qed.

(** C10, amended.  [getTransactions] answers with all the transaction rows,
    latest [transaction_date] first; [getDocuments] with all the document
    rows, latest [upload_date] first; [getDocumentTransactions] with the
    transaction rows of the given document, earliest [transaction_date]
    first.  When the document has no row, [getDocumentTransactions] throws
    'Document with ID <id> not found' for an id that the 32-bit column can
    hold, the engine's range error for any other.  None of them changes the
    store. *)
Theorem list_operations_ordered (s : DB) (documentId : Z) :
  (∃ l, getTransactions s = mkRun (Returned l) s [] ∧
        l ≡ₚ rows (transactions s) ∧
        (∀ t, t ∈ l ↔ ∃ k, transactions s !! k = Some t) ∧
        StronglySorted
          (λ a b, Transaction.transaction_date b ≤ Transaction.transaction_date a) l) ∧
  (∃ l, getDocuments s = mkRun (Returned l) s [] ∧
        l ≡ₚ rows (documents s) ∧
        (∀ d, d ∈ l ↔ ∃ k, documents s !! k = Some d) ∧
        StronglySorted
          (λ a b, Document.upload_date b ≤ Document.upload_date a) l) ∧
  match documents s !! documentId with
  | Some _ =>
      ∃ l, getDocumentTransactions documentId s = mkRun (Returned l) s [] ∧
           l ≡ₚ filter (λ t, Transaction.document_id t = documentId)
                  (rows (transactions s)) ∧
           (∀ t, t ∈ l ↔
                 Transaction.document_id t = documentId ∧
                 ∃ k, transactions s !! k = Some t) ∧
           StronglySorted
             (λ a b, Transaction.transaction_date a ≤ Transaction.transaction_date b) l
  | None =>
      getDocumentTransactions documentId s =
        mkRun
          (Threw (if int4 documentId then
                    ErrorObj ("Document with ID " +:+ show documentId +:+ " not found")
                  else EngineError integer_out_of_range))
          s []
  end.
Proof.
  split; [|split].
  - eexists. unfold getTransactions. rewrite rethrow.
    split; [reflexivity|]. split; [apply orderBy_Permutation|].
    split; [|apply orderBy_desc_sorted].
    intros t. rewrite orderBy_Permutation. apply elem_of_rows.
  - eexists. unfold getDocuments. rewrite rethrow.
    split; [reflexivity|]. split; [apply orderBy_Permutation|].
    split; [|apply orderBy_desc_sorted].
    intros d. rewrite orderBy_Permutation. apply elem_of_rows.
  - unfold getDocumentTransactions. rewrite rethrow.
    destruct (documents s !! documentId) as [d|] eqn:Hdoc.
    + erewrite bind_Returned; last by apply (select_present _ _ _ Hdoc).
      rewrite after_no_writes.
      eexists. split; [reflexivity|]. split; [apply orderBy_Permutation|].
      split; [|apply orderBy_asc_sorted].
      intros t. rewrite orderBy_Permutation, list_elem_of_filter, elem_of_rows.
      reflexivity.
    + destruct (int4 documentId) eqn:Hrange.
      * erewrite bind_Returned; last by apply select_absent.
        reflexivity.
      * erewrite bind_Threw; last by apply select_out_of_range.
        reflexivity.
Qed.

(** ** C4: [ILIKE '%term%'] is a search without regard to case *)

Lemma lower_append (a b : string) : lower (a +:+ b) = lower a +:+ lower b.
Proof. induction a as [|c a IH]; simpl; [reflexivity|]. by rewrite IH. Qed.









(** ** C4: the [where] clause of the search *)

Lemma and_app (l1 l2 : list Condition) (t : Transaction.t) (b1 b2 : bool) :
  and_ l1 t = Some b1 → and_ l2 t = Some b2 →
  and_ (l1 ++ l2) t = Some (b1 && b2).
Proof.
  revert b1. induction l1 as [|c l1 IH]; intros b1 H1 H2; simpl in *.
  - injection H1 as <-. exact H2.
  - destruct (c t) as [b|]; simpl in *; [|discriminate H1].
    destruct (and_ l1 t) as [bs|]; simpl in *; [|discriminate H1].
    injection H1 as <-. rewrite (IH bs eq_refl H2). simpl.
    by rewrite andb_assoc.
Qed.

Lemma and_singleton (c : Condition) (t : Transaction.t) (b : bool) :
  c t = Some b → and_ [c] t = Some b.
Proof. intros Hc. simpl. rewrite Hc. simpl. by rewrite andb_true_r. Qed.







Lemma filter_all {A} (P : A → Prop) `{∀ x, Decision (P x)} (l : list A) :
  (∀ x, P x) → filter P l = l.
Proof.
  intros HP. induction l as [|x l IH]; [reflexivity|].
  rewrite filter_cons, decide_True by apply HP. by rewrite IH.
Qed.


Lemma search_order_Permutation (input : SearchTransactionsInput.t)
    (l : list Transaction.t) :
  search_order input l ≡ₚ l.
Proof.
  unfold search_order.
  destruct (SearchTransactionsInput.sort_by input),
           (SearchTransactionsInput.sort_order input);
    apply orderBy_Permutation.
Qed.

Lemma ceil_div_spec (a b : Z) :
  0 < b → (ceil_div a b - 1) * b < a ≤ ceil_div a b * b.
Proof.
  intros Hb. unfold ceil_div.
  pose proof (Z.div_mod (- a) b ltac:(lia)) as Hdiv.
  pose proof (Z.mod_pos_bound (- a) b Hb) as Hmod.
  nia.
Qed.

(** ** C4: the order of the rows *)

Class SqlOrdTotal (K : Type) `{SqlOrd K} : Prop :=
  sql_le_total : ∀ a b : K, sql_le a b = true ∨ sql_le b a = true.

#[global] Instance SqlOrdTotal_Z : SqlOrdTotal Z.
Proof.
  intros a b. unfold sql_le, SqlOrd_Z.
  destruct (Z.leb_spec a b); [by left|right]. apply Z.leb_le. lia.
Qed.

#[global] Instance SqlOrdTotal_string : SqlOrdTotal string.
Proof. intros a b. apply String.leb_total. Qed.

#[global] Instance SqlOrdTotal_nullable {K} `{SqlOrdTotal K} :
  SqlOrdTotal (option K).
Proof.
  intros [a|] [b|]; try (by left); try (by right).
  apply (sql_le_total (K := K)).
Qed.

#[global] Instance asc_total_order {A K} `{SqlOrdTotal K} (column : A → K) :
  Total (asc column).
Proof.
  intros a b. unfold asc.
  destruct (sql_le_total (column a) (column b)) as [-> | ->];
    [by left|by right].
Qed.

#[global] Instance desc_total_order {A K} `{SqlOrdTotal K} (column : A → K) :
  Total (desc column).
Proof.
  intros a b. unfold desc.
  destruct (sql_le_total (column a) (column b)) as [-> | ->];
    [by right|by left].
Qed.

Lemma Sorted_weaken {A} (R R' : relation A) (l : list A) :
  (∀ a b, R a b → R' a b) → Sorted R l → Sorted R' l.
Proof.
  intros HR. induction 1 as [|a l Hl IH Ha]; constructor; [exact IH|].
  destruct Ha; constructor. by apply HR.
Qed.



Lemma search_order_Sorted (input : SearchTransactionsInput.t)
    (l : list Transaction.t) :
  Sorted (λ a b, in_order input a b) (search_order input l).
Proof.
  unfold search_order, in_order.
  destruct (SearchTransactionsInput.sort_by input),
           (SearchTransactionsInput.sort_order input);
    (eapply Sorted_weaken; [|apply Sorted_merge_sort; apply _]);
    intros a b Hab; exact Hab.
Qed.

(** ** C4 *)




(** ** The pattern language on examples *)

Example ilike_ignores_case :
  ilike "Grocery Store Purchase" "%GROCERY%" = Some true.
Proof. reflexivity. Qed.

Example ilike_underscore_is_any_character :
  ilike "abc" "%a_c%" = Some true ∧ ilike "abc" "%a\_c%" = Some false.
Proof. split; reflexivity. Qed.

Example ilike_escaped_percent_is_literal :
  ilike "100%" "%\%" = Some true ∧ ilike "100" "%\%" = Some false.
Proof. split; reflexivity. Qed.


(** * Further properties of the handlers *)

(** ** What the handlers keep *)

Lemma same_file_refl (d : Document.t) : same_file d d.
Proof. by repeat split. Qed.

Lemma same_file_trans (d1 d2 d3 : Document.t) :
  same_file d1 d2 → same_file d2 d3 → same_file d1 d3.
Proof. unfold same_file. intros H12 H23. intuition congruence. Qed.

Lemma same_file_set_document (values : DocumentUpdate.t) (d : Document.t) :
  same_file d (set_document values d).
Proof. by repeat split. Qed.

Lemma keeps_update (s0 : DB) (id : Z) (values : DocumentUpdate.t) :
  preserves (keeps_stored_data s0) (update_documents_where_id id values).
Proof.
  apply update_preserves.
  intros s [Ht Hd]. split; simpl; [exact Ht|].
  intros k d Hk. destruct (Hd k d Hk) as (d' & Hd' & Hsame).
  destruct (decide (id = k)) as [->|Hne].
  - exists (set_document values d'). rewrite lookup_alter_eq, Hd'.
    split; [reflexivity|].
    eapply same_file_trans; [exact Hsame|apply same_file_set_document].
  - exists d'. by rewrite lookup_alter_ne.
Qed.

Lemma keeps_insert_document (s0 : DB) (v : NewDocument.t) :
  preserves (keeps_stored_data s0) (insert_document v).
Proof.
  intros s Hs. unfold insert_document.
  destruct (negb (int4 _)); [by simpl; auto|].
  destruct (documents s !! documents_id_seq s) as [d0|] eqn:Hfree;
    [by simpl; auto|].
  destruct Hs as [Ht Hd]. apply wrote_preserves. split; simpl; [exact Ht|].
  intros k d Hk. destruct (Hd k d Hk) as (d' & Hd' & Hsame).
  exists d'. split; [|exact Hsame].
  rewrite lookup_insert_ne; [exact Hd'|]. intros <-. congruence.
Qed.

Lemma keeps_insert_transaction (s0 : DB) (v : NewTransaction.t) :
  preserves (keeps_stored_data s0) (insert_transaction v).
Proof.
  intros s Hs. unfold insert_transaction.
  destruct (negb (numeric_12_2 _)); [by simpl; auto|].
  destruct (transactions s !! transactions_id_seq s) as [t0|] eqn:Hfree;
    [by simpl; auto|].
  destruct (documents s !! NewTransaction.document_id v) as [d0|];
    [|by destruct (int4 _); simpl; auto].
  destruct Hs as [Ht Hd]. apply wrote_preserves. split; simpl; [|exact Hd].
  intros k t Hk. rewrite lookup_insert_ne; [by apply Ht|].
  intros <-. apply Ht in Hk. congruence.
Qed.

Lemma keeps_stored_data_refl (s : DB) : keeps_stored_data s s.
Proof.
  split; [done|]. intros k d Hk. exists d. split; [exact Hk|apply same_file_refl].
Qed.

(** X1.  No route that the sources implement -- that is, none but the
    deletion of a transaction -- changes or removes a stored transaction,
    and none removes a document or changes the columns that describe its
    file: id, filename, original name, size, MIME type and upload date. *)
Theorem handlers_keep_stored_data (op : Operation) (s : DB) :
  match op with
  | op_deleteTransaction _ | op_deleteDocument _ => True
  | _ => keeps_stored_data s (after op s)
  end.
Proof.
  pose proof (keeps_stored_data_refl s) as Hs.
  pose proof (keeps_update s) as Hu.
  pose proof (keeps_insert_document s) as Hid.
  pose proof (keeps_insert_transaction s) as Hit.
  destruct op; simpl; try exact I.
  - exact (proj1 (uploadDocument_preserves _ Hid _ _ _ s Hs)).
  - exact Hs.
  - exact (proj1 (updateDocumentStatus_preserves _ Hu _ s Hs)).
  - exact (proj1 (processDocument_preserves _ Hu Hit _ s Hs)).
  - exact (proj1 (getDocumentTransactions_preserves _ _ s Hs)).
  - exact (proj1 (createTransaction_preserves _ Hit _ s Hs)).
  - exact Hs.
  - exact (proj1 (searchTransactions_preserves _ _ s Hs)).
  - exact Hs.
Qed.

(** ** [processDocument] touches one document *)

Lemma saveTransactions_new_rows (documentId : Z)
    (extracted : list ExtractedTransactionData.t) :
  ∀ (saved : list Transaction.t) (s : DB) (k : Z) (t : Transaction.t),
    transactions (final (saveTransactions documentId extracted saved s)) !! k
      = Some t →
    transactions s !! k = Some t ∨ Transaction.document_id t = documentId.
Proof.
  induction extracted as [|x xs IH]; intros saved s k t; simpl; [by auto|].
  unfold bind, insert_transaction.
  destruct (negb (numeric_12_2 _)); simpl; [by auto|].
  destruct (transactions s !! transactions_id_seq s) as [t0|] eqn:Hfree;
    simpl; [by auto|].
  destruct (documents s !! documentId) as [d0|]; simpl;
    [|by destruct (int4 documentId); simpl; auto].
  intros Hk. apply IH in Hk as [Hk|Hk]; [|by right]. simpl in Hk.
  destruct (decide (transactions_id_seq s = k)) as [<-|Hne].
  - rewrite lookup_insert_eq in Hk. injection Hk as <-. by right.
  - rewrite lookup_insert_ne in Hk by done. by left.
Qed.

Lemma extract_and_save_new_rows (documentId : Z) (document : Document.t)
    (s : DB) (k : Z) (t : Transaction.t) :
  transactions (final (extract_and_save documentId document s)) !! k = Some t →
  transactions s !! k = Some t ∨ Transaction.document_id t = documentId.
Proof.
  unfold extract_and_save, extractTransactionsFromDocument.
  destruct (includes "empty" (Document.filename document)).
  { erewrite bind_Returned; [|reflexivity]. rewrite after_no_writes.
    apply saveTransactions_new_rows. }
  destruct (includes "error" (Document.filename document)).
  { erewrite bind_Threw; [|reflexivity]. simpl. by auto. }
  erewrite bind_Returned; [|reflexivity]. rewrite after_no_writes.
  apply saveTransactions_new_rows.
Qed.

(** X2.  [processDocument] touches one document only: the row of every
    other document is as before, and every transaction of the store it
    leaves was there before or belongs to the document processed. *)
Theorem processDocument_touches_only (s : DB) (documentId : Z) :
  touches_only documentId s (final (processDocument documentId s)).
Proof.
  destruct (documents s !! documentId) as [d|] eqn:Hdoc.
  - rewrite (processDocument_existing _ _ _ Hdoc). cbv zeta.
    set (s1 := mark documentId set_processing s).
    destruct (extract_and_save_documents documentId d s1) as [Hdocs _].
    pose proof (extract_and_save_new_rows documentId d s1) as Hrows.
    assert (Hfinal : ∀ values,
      touches_only documentId s
        (mark documentId values (final (extract_and_save documentId d s1)))).
    { intros values. split.
      - intros k Hk. rewrite mark_lookup_ne, Hdocs by done.
        subst s1. by rewrite mark_lookup_ne.
      - intros k t Hk. rewrite mark_transactions in Hk.
        apply Hrows in Hk. exact Hk. }
    destruct (extract_and_save documentId d s1) as [[saved|e] s2 w2];
      simpl in *; apply Hfinal.
  - rewrite (processDocument_missing _ _ Hdoc).
    destruct (int4 documentId); simpl; split; by auto.
Qed.

(** ** [updateDocumentStatus] can be repeated *)

Lemma set_document_idempotent (values : DocumentUpdate.t) (d : Document.t) :
  set_document values (set_document values d) = set_document values d.
Proof. by destruct values as [[status|] [message|]]. Qed.

Lemma update_twice (id : Z) (values : DocumentUpdate.t) (s : DB) :
  let r := update_documents_where_id id values s in
  update_documents_where_id id values (final r) = r.
Proof.
  destruct (documents s !! id) as [d|] eqn:Hdoc; cbv zeta.
  - rewrite (update_present _ _ _ _ Hdoc). simpl.
    erewrite update_present; last by (simpl; apply lookup_insert_eq).
    unfold with_documents. simpl.
    by rewrite set_document_idempotent, insert_insert_eq.
  - destruct (int4 id) eqn:Hrange.
    + rewrite (update_absent _ _ _ Hdoc Hrange). simpl. by apply update_absent.
    + rewrite (update_out_of_range _ _ _ Hdoc Hrange). simpl.
      by apply update_out_of_range.
Qed.

(** X3.  [updateDocumentStatus] is safe to repeat: the same call made
    again on the store that the first one left ends the same way and
    leaves that store as it is.  The call changes no transaction and no
    other document. *)
Theorem updateDocumentStatus_idempotent
    (s : DB) (input : UpdateDocumentStatusInput.t) :
  let r := updateDocumentStatus input s in
  updateDocumentStatus input (final r) = r ∧
  transactions (final r) = transactions s ∧
  ∀ k, k ≠ UpdateDocumentStatusInput.id input →
       documents (final r) !! k = documents s !! k.
Proof.
  cbv zeta. unfold updateDocumentStatus. rewrite !rethrow. cbv zeta.
  set (values := match UpdateDocumentStatusInput.processing_status input with
                 | failed => _ | _ => _ end).
  set (id := UpdateDocumentStatusInput.id input).
  pose proof (update_twice id values s) as Htwice. cbv zeta in Htwice.
  destruct (documents s !! id) as [d|] eqn:Hdoc.
  - rewrite (update_present _ _ _ _ Hdoc) in Htwice. simpl in Htwice.
    rewrite (bind_Returned _ _ s _ _ _ (update_present _ _ _ _ Hdoc)).
    unfold after_writes at 1 2 3. simpl.
    rewrite (bind_Returned _ _ _ _ _ _ Htwice).
    split; [reflexivity|]. split; [reflexivity|].
    intros k Hk. by rewrite lookup_insert_ne.
  - destruct (int4 id) eqn:Hrange.
    + rewrite (bind_Returned _ _ s _ _ _ (update_absent _ _ _ Hdoc Hrange)).
      unfold after_writes at 1 2 3. simpl.
      rewrite (bind_Returned _ _ s _ _ _ (update_absent _ _ _ Hdoc Hrange)).
      done.
    + rewrite (bind_Threw _ _ s _ _ _ (update_out_of_range _ _ _ Hdoc Hrange)).
      simpl.
      rewrite (bind_Threw _ _ s _ _ _ (update_out_of_range _ _ _ Hdoc Hrange)).
      done.
Qed.

(** ** A created transaction can be read back *)

Lemma rows_insert {A} (table : gmap Z A) (k : Z) (x : A) :
  table !! k = None → rows (<[k := x]> table) ≡ₚ x :: rows table.
Proof.
  intros Hk. unfold rows. by rewrite (map_to_list_insert _ _ _ Hk).
Qed.

Lemma getDocumentTransactions_run (s : DB) (documentId : Z) (d : Document.t) :
  documents s !! documentId = Some d →
  getDocumentTransactions documentId s =
    mkRun
      (Returned
         (orderBy (asc Transaction.transaction_date)
            (filter (λ t, Transaction.document_id t = documentId)
               (rows (transactions s)))))
      s [].
Proof.
  intros Hdoc. unfold getDocumentTransactions. rewrite rethrow.
  erewrite bind_Returned; last by apply (select_present _ _ _ Hdoc).
  rewrite after_no_writes. reflexivity.
Qed.

Lemma createTransaction_run (s : DB) (input : CreateTransactionInput.t)
    (d : Document.t) :
  sequences_ahead s →
  documents s !! CreateTransactionInput.document_id input = Some d →
  numeric_12_2 (CreateTransactionInput.amount input) = true →
  let row :=
    Transaction.mk (transactions_id_seq s)
      (CreateTransactionInput.document_id input)
      (CreateTransactionInput.transaction_date input)
      (CreateTransactionInput.amount input)
      (CreateTransactionInput.description input)
      (CreateTransactionInput.account_number input)
      (CreateTransactionInput.vendor_name input)
      (CreateTransactionInput.transaction_type input)
      (db_now s) in
  createTransaction input s =
    wrote row
      (mkDB (documents s) (<[transactions_id_seq s := row]> (transactions s))
         (documents_id_seq s) (transactions_id_seq s + 1) (db_now s)).
Proof.
  intros Hseq Hdoc Hamount row. unfold createTransaction. rewrite rethrow.
  erewrite bind_Returned; last by apply (select_present _ _ _ Hdoc).
  rewrite after_no_writes. simpl.
  erewrite bind_Returned; last first.
  { eapply insert_transaction_ok; [exact Hamount| |exact Hdoc].
    apply sequences_ahead_fresh; [exact Hseq|lia]. }
  reflexivity.
Qed.

(** X4.  On a document of the store, and with an input that the columns
    take -- an amount that [numeric(12, 2)] can hold among them --,
    [createTransaction] inserts one row and answers with it: the row
    carries the fields of the input, the time of the store as
    [created_at] and an id that no transaction had before; no
    other row changes.  The row can be read back:
    [getDocumentTransactions] on its document then answers with the
    transactions it answered with before, and the new one. *)
Theorem createTransaction_read_back (s : DB) (input : CreateTransactionInput.t)
    (d : Document.t) :
  sequences_ahead s →
  documents s !! CreateTransactionInput.document_id input = Some d →
  storable_transaction input = true →
  let documentId := CreateTransactionInput.document_id input in
  let r := createTransaction input s in
  let row :=
    Transaction.mk (transactions_id_seq s) documentId
      (CreateTransactionInput.transaction_date input)
      (CreateTransactionInput.amount input)
      (CreateTransactionInput.description input)
      (CreateTransactionInput.account_number input)
      (CreateTransactionInput.vendor_name input)
      (CreateTransactionInput.transaction_type input)
      (db_now s) in
  outcome r = Returned row ∧
  transactions s !! Transaction.id row = None ∧
  transactions (final r) = <[Transaction.id row := row]> (transactions s) ∧
  documents (final r) = documents s ∧
  ∃ before after_,
    outcome (getDocumentTransactions documentId s) = Returned before ∧
    outcome (getDocumentTransactions documentId (final r)) = Returned after_ ∧
    after_ ≡ₚ row :: before.
Proof.
  intros Hseq Hdoc Hinput documentId r row. subst r row documentId.
  assert (Hamount : numeric_12_2 (CreateTransactionInput.amount input) = true).
  { unfold storable_transaction in Hinput.
    do 4 (apply andb_true_iff in Hinput as [Hinput _]). exact Hinput. }
  assert (Hfresh : transactions s !! transactions_id_seq s = None)
    by (apply sequences_ahead_fresh; [exact Hseq|lia]).
  rewrite (createTransaction_run _ _ _ Hseq Hdoc Hamount). simpl.
  split; [reflexivity|]. split; [exact Hfresh|].
  split; [reflexivity|]. split; [reflexivity|].
  eexists _, _.
  split; [by rewrite (getDocumentTransactions_run _ _ _ Hdoc)|].
  split; [by erewrite getDocumentTransactions_run|].
  simpl. rewrite !orderBy_Permutation.
  rewrite (rows_insert _ _ _ Hfresh), filter_cons.
  by rewrite decide_True.
Qed.

Lemma createTransaction_read_back_witness :
  let input :=
    CreateTransactionInput.mk 2 1705449600000 (-4200) "Card payment"
      None (Some "Corner Shop") (Some debit) in
  sequences_ahead processed_store ∧
  documents processed_store !! 2 = Some (sample_document 2 "statement.pdf") ∧
  storable_transaction input = true ∧
  outcome (createTransaction input processed_store)
    = Returned (Transaction.mk 9 2 1705449600000 (-4200) "Card payment"
                  None (Some "Corner Shop") (Some debit) 1700000000900).
Proof.
  intros input.
  assert (H1 : sequences_ahead processed_store)
    by (apply (bool_decide_unpack _); vm_compute; exact I).
  assert (H2 : documents processed_store !! 2
               = Some (sample_document 2 "statement.pdf")) by reflexivity.
  split; [exact H1|]. split; [exact H2|]. split; [reflexivity|].
  exact (proj1 (createTransaction_read_back processed_store input _ H1 H2
                  eq_refl)).
Defined.

(** ** [processDocument] cannot be repeated *)

(** X5.  [processDocument] does not look at the status of the document
    nor at what it saved before: run a second time on a document with the
    mock transactions, it inserts the two of them again, under two further
    ids, so that the store then holds four rows where one run left two. *)
Theorem processDocument_again (s : DB) (documentId : Z) (document : Document.t) :
  sequences_ahead s →
  documents s !! documentId = Some document →
  includes "empty" (Document.filename document) = false →
  includes "error" (Document.filename document) = false →
  let n := transactions_id_seq s in
  let now := db_now s in
  let r1 := processDocument documentId s in
  let r2 := processDocument documentId (final r1) in
  outcome r1 = Returned [mock_row_1 n documentId now;
                         mock_row_2 (n + 1) documentId now] ∧
  outcome r2 = Returned [mock_row_1 (n + 2) documentId now;
                         mock_row_2 (n + 3) documentId now] ∧
  transactions (final r2) =
    <[n + 3 := mock_row_2 (n + 3) documentId now]>
      (<[n + 2 := mock_row_1 (n + 2) documentId now]>
         (<[n + 1 := mock_row_2 (n + 1) documentId now]>
            (<[n := mock_row_1 n documentId now]> (transactions s)))).
Proof.
  intros Hseq Hdoc Hempty Herror n now r1 r2.
  assert (Hseq1 : sequences_ahead (final r1)).
  { exact (proj1 (processDocument_preserves _ ahead_update
                    ahead_insert_transaction documentId s Hseq)). }
  assert (Hr1 : r1 = processDocument documentId s) by reflexivity.
  rewrite (processDocument_run _ _ _ Hseq Hdoc), Hempty, Herror in Hr1.
  cbv zeta in Hr1.
  assert (Hdoc1 : ∃ d1, documents (final r1) !! documentId = Some d1 ∧
                        Document.filename d1 = Document.filename document).
  { rewrite Hr1. simpl. rewrite lookup_alter_eq. simpl.
    rewrite lookup_alter_eq, Hdoc. simpl. by eexists. }
  destruct Hdoc1 as (d1 & Hdoc1 & Hname).
  assert (Hr2 : r2 = processDocument documentId (final r1)) by reflexivity.
  rewrite (processDocument_run _ _ _ Hseq1 Hdoc1), Hname, Hempty, Herror in Hr2.
  cbv zeta in Hr2.
  clearbody r2. subst r2. clearbody r1. subst r1. simpl.
  subst n now.
  replace (transactions_id_seq s + 1 + 1 + 1) with (transactions_id_seq s + 3)
    by lia.
  replace (transactions_id_seq s + 1 + 1) with (transactions_id_seq s + 2)
    by lia.
  done.
Qed.

Lemma processDocument_again_witness :
  sequences_ahead sample_store ∧
  documents sample_store !! 1 = Some (sample_document 1 "test-document.pdf") ∧
  outcome (processDocument 1 (final (processDocument 1 sample_store)))
    = Returned [mock_row_1 3 1 1700000000500; mock_row_2 4 1 1700000000500].
Proof.
  assert (H1 : sequences_ahead sample_store)
    by (apply (bool_decide_unpack _); vm_compute; exact I).
  assert (H2 : documents sample_store !! 1
               = Some (sample_document 1 "test-document.pdf")) by reflexivity.
  split; [exact H1|]. split; [exact H2|].
  exact (proj1 (proj2 (processDocument_again sample_store 1 _ H1 H2
                         eq_refl eq_refl))).
Defined.

(** ** The search never fails *)

Lemma like_tokens_before_percent (n : nat) :
  ∀ p, (String.length p ≤ n)%nat → is_Some (like_tokens (p +:+ "%")).
Proof.
  induction n as [n IH] using lt_wf_ind. intros p Hlen.
  destruct p as [|c p]; [by eexists|].
  simpl in Hlen. simpl.
  assert (Hrest : is_Some (like_tokens (p +:+ "%")))
    by (apply (IH (String.length p)); lia).
  destruct (Ascii.eqb c "%"); [by apply fmap_is_Some|].
  destruct (Ascii.eqb c "_"); [by apply fmap_is_Some|].
  destruct (Ascii.eqb c escape); [|by apply fmap_is_Some].
  destruct p as [|c' p]; simpl; [by eexists|].
  apply fmap_is_Some. simpl in Hlen. apply (IH (String.length p)); lia.
Qed.

Lemma ilike_total (s term : string) :
  is_Some (ilike s ("%" +:+ term +:+ "%")).
Proof.
  unfold ilike.
  change (lower ("%" +:+ term +:+ "%")) with ("%" +:+ lower (term +:+ "%")).
  rewrite lower_append.
  change (like_tokens ("%" +:+ lower term +:+ lower "%"))
    with (cons any_string <$> like_tokens (lower term +:+ "%")).
  destruct (like_tokens_before_percent _ (lower term) (le_n _)) as [tokens ->].
  by eexists.
Qed.

Lemma and_app_is_Some (l1 l2 : list Condition) (t : Transaction.t) :
  is_Some (and_ l1 t) → is_Some (and_ l2 t) → is_Some (and_ (l1 ++ l2) t).
Proof.
  intros [b1 H1] [b2 H2]. rewrite (and_app _ _ _ _ _ H1 H2). by eexists.
Qed.

Lemma and_singleton_is_Some (c : Condition) (t : Transaction.t) :
  is_Some (c t) → is_Some (and_ [c] t).
Proof. intros [b Hb]. rewrite (and_singleton _ _ _ Hb). by eexists. Qed.

Lemma search_conditions_total (input : SearchTransactionsInput.t)
    (t : Transaction.t) :
  is_Some (and_ (search_conditions input) t).
Proof.
  unfold search_conditions.
  repeat apply and_app_is_Some;
    try (match goal with
         | |- context [match ?x with Some _ => _ | None => _ end] =>
             destruct x as [x'|]; [|by eexists];
             try (match goal with
                  | |- context [if truthy ?y then _ else _] =>
                      destruct (truthy y); [|by eexists]
                  end);
             apply and_singleton_is_Some
         end).
  - unfold or_, and_, ilike_text, ilike_nullable, isNotNull.
    destruct (ilike_total (Transaction.description t) x') as [b1 ->].
    destruct (Transaction.vendor_name t) as [vendor|]; simpl; [|by eexists].
    destruct (ilike_total vendor x') as [b2 ->]. by eexists.
  - by eexists.
  - by eexists.
  - by eexists.
  - by eexists.
  - by eexists.
  - by eexists.
  - by eexists.
Qed.

Lemma where_total (c : Condition) (l : list Transaction.t) :
  (∀ t, is_Some (c t)) →
  where_ c l = Some (filter (λ t, c t = Some true) l).
Proof.
  intros Hc. induction l as [|t l IH]; simpl; [reflexivity|].
  destruct (Hc t) as [b Hb]. rewrite Hb, IH. simpl. rewrite filter_cons.
  destruct b.
  - by rewrite decide_True by (by rewrite Hb).
  - by rewrite decide_False by (by rewrite Hb).
Qed.

Lemma filter_ext_bool {A} (P : A → Prop) `{∀ x, Decision (P x)}
    (p : A → bool) (l : list A) :
  (∀ x, P x ↔ p x) → filter P l = filter (λ x, p x) l.
Proof.
  intros HP. induction l as [|x l IH]; [reflexivity|].
  rewrite !filter_cons, IH.
  destruct (decide (P x)) as [Hx|Hx], (decide (p x)) as [Hx'|Hx'];
    try reflexivity; exfalso; by apply HP in Hx || by (apply Hx, HP).
Qed.

Lemma apply_where_matches (input : SearchTransactionsInput.t)
    (l : list Transaction.t) :
  apply_where (search_conditions input) l
    = Some (filter (λ t, matches input t) l).
Proof.
  pose proof (search_conditions_total input) as Htotal.
  assert (Hfilter :
    filter (λ t, and_ (search_conditions input) t = Some true) l
    = filter (λ t, matches input t) l).
  { apply filter_ext_bool. intros t. unfold matches.
    by rewrite bool_decide_spec. }
  unfold apply_where.
  destruct (search_conditions input) as [|c cs] eqn:Hcs.
  - rewrite <- Hfilter. by rewrite filter_all.
  - rewrite <- Hfilter. by apply where_total.
Qed.

(** The run of a search with a positive page and limit. *)
Lemma searchTransactions_run (s : DB) (input : SearchTransactionsInput.t) :
  0 < SearchTransactionsInput.page input →
  0 < SearchTransactionsInput.limit input →
  let limit := SearchTransactionsInput.limit input in
  let offset := (SearchTransactionsInput.page input - 1) * limit in
  let matching := filter (λ t, matches input t) (rows (transactions s)) in
  searchTransactions input s =
    mkRun
      (Returned
         (PaginatedTransactions.mk
            (take (Z.to_nat limit)
               (drop (Z.to_nat offset) (search_order input matching)))
            (Z.of_nat (length matching))
            (SearchTransactionsInput.page input)
            limit
            (ceil_div (Z.of_nat (length matching)) limit)))
      s [].
Proof.
  intros Hpage Hlimit limit offset matching.
  unfold searchTransactions. rewrite rethrow. cbv zeta.
  fold limit. fold offset.
  erewrite bind_Returned; last first.
  { unfold execute_page. rewrite apply_where_matches. fold matching.
    assert ((offset <? 0) = false) as -> by (apply Z.ltb_ge; subst offset; nia).
    assert ((limit <? 0) = false) as -> by (apply Z.ltb_ge; lia).
    reflexivity. }
  rewrite after_no_writes.
  erewrite bind_Returned; last first.
  { unfold execute_count. rewrite apply_where_matches. fold matching.
    reflexivity. }
  reflexivity.
Qed.



(** ** The order of a page *)



(** ** The pages of a search *)



Class SqlOrdTrans (K : Type) `{SqlOrd K} : Prop :=
  sql_le_trans : ∀ a b c : K,
    sql_le a b = true → sql_le b c = true → sql_le a c = true.

#[global] Instance SqlOrdTrans_Z : SqlOrdTrans Z.
Proof.
  intros a b c Hab Hbc. unfold sql_le, SqlOrd_Z in *.
  apply Z.leb_le. apply Z.leb_le in Hab, Hbc. lia.
Qed.

#[global] Instance SqlOrdTrans_string : SqlOrdTrans string.
Proof.
  intros a b c Hab Hbc. unfold sql_le, SqlOrd_string in *.
  apply Is_true_true. apply Is_true_true in Hab, Hbc.
  exact (transitivity (R := String.le) Hab Hbc).
Qed.

#[global] Instance SqlOrdTrans_nullable {K} `{SqlOrdTrans K} :
  SqlOrdTrans (option K).
Proof.
  intros [a|] [b|] [c|] Hab Hbc; try done.
  exact (sql_le_trans (K := K) a b c Hab Hbc).
Qed.

#[global] Instance in_order_trans (input : SearchTransactionsInput.t) :
  Transitive (λ a b : Transaction.t, Is_true (in_order input a b)).
Proof.
  intros a b c Hab Hbc. apply Is_true_true. apply Is_true_true in Hab, Hbc.
  unfold in_order in *.
  destruct (SearchTransactionsInput.sort_by input),
           (SearchTransactionsInput.sort_order input);
    first [ exact (sql_le_trans _ _ _ Hab Hbc)
          | exact (sql_le_trans _ _ _ Hbc Hab) ].
Qed.

(** With distinct sort keys there is one sorted arrangement of the rows. *)
Lemma search_order_unique (input : SearchTransactionsInput.t)
    (l sorted : list Transaction.t) :
  distinct_keys input l →
  sorted ≡ₚ l →
  Sorted (λ a b, in_order input a b) sorted →
  search_order input l = sorted.
Proof.
  intros Hdistinct Hperm Hsorted.
  apply (Sorted_unique_strong (λ a b, Is_true (in_order input a b)));
    [|apply search_order_Sorted|exact Hsorted
     |by rewrite search_order_Permutation, Hperm].
  intros a b Ha Hb Hab Hba.
  rewrite search_order_Permutation in Ha. rewrite Hperm in Hb.
  unfold distinct_keys in Hdistinct. rewrite Forall_forall in Hdistinct.
  specialize (Hdistinct a Ha). rewrite Forall_forall in Hdistinct.
  exact (Hdistinct b Hb Hab Hba).
Qed.

(** X9.  For a search that sorts on the date or on the amount, with an
    input within the limits of the engine: when no two matching rows have
    the same sort key, the pages of the search on one store, one after the
    other, are the matching rows in sorted order.  Whatever sorted
    arrangement [sorted] of the matching rows is taken -- there is but
    one --, the first [n] pages make up its first n * limit rows, and the
    pages up to [total_pages] make up all of it. *)
Theorem searchTransactions_pages_join
    (s : DB) (input : SearchTransactionsInput.t) (n : nat)
    (sorted : list Transaction.t) :
  0 < SearchTransactionsInput.limit input →
  sorts_on_number input = true →
  filters_in_range input = true →
  (1 + Z.of_nat n) * SearchTransactionsInput.limit input ≤ max_safe_integer →
  let limit := SearchTransactionsInput.limit input in
  let matching := filter (λ t, matches input t) (rows (transactions s)) in
  let page p := page_of (searchTransactions (with_page input p) s) in
  distinct_keys input matching →
  sorted ≡ₚ matching →
  Sorted (λ a b, in_order input a b) sorted →
  mjoin (page <$> seqZ 1 (Z.of_nat n)) = take (n * Z.to_nat limit) sorted ∧
  (ceil_div (Z.of_nat (length matching)) limit ≤ Z.of_nat n →
   mjoin (page <$> seqZ 1 (Z.of_nat n)) = sorted).
Proof.
  intros Hlimit _ _ _ limit matching page Hdistinct Hperm Hsorted.
  assert (Hjoin : mjoin (page <$> seqZ 1 (Z.of_nat n))
                  = take (n * Z.to_nat limit) (search_order input matching)).
  { induction n as [|n IH]; [reflexivity|].
    rewrite seqZ_S, fmap_app, join_app, IH. simpl.
    rewrite app_nil_r. subst page. cbv beta.
    rewrite (searchTransactions_run s (with_page input (1 + Z.of_nat n)));
      [|simpl; lia|exact Hlimit].
    cbv zeta. unfold page_of. simpl. fold limit.
    change (filter (λ t, matches (with_page input (1 + Z.of_nat n)) t)
              (rows (transactions s))) with matching.
    change (search_order (with_page input (1 + Z.of_nat n)) matching)
      with (search_order input matching).
    replace (Z.to_nat ((1 + Z.of_nat n - 1) * limit))
      with (n * Z.to_nat limit)%nat by nia.
    rewrite take_take_drop. f_equal. lia. }
  rewrite (search_order_unique input matching sorted Hdistinct Hperm Hsorted)
    in Hjoin.
  split; [exact Hjoin|].
  intros Hpages. rewrite Hjoin.
  pose proof (ceil_div_spec (Z.of_nat (length matching)) limit Hlimit) as Hceil.
  apply take_ge. rewrite Hperm. nia.
Qed.

Lemma searchTransactions_pages_join_witness :
  let input :=
    SearchTransactionsInput.mk None None None None None None None None
      by_amount sort_asc 1 1 in
  let matching :=
    filter (λ t, matches input t) (rows (transactions processed_store)) in
  let sorted :=
    [mock_row_1 7 2 1700000000500; mock_row_2 8 2 1700000000500] in
  0 < SearchTransactionsInput.limit input ∧
  sorts_on_number input = true ∧
  filters_in_range input = true ∧
  distinct_keys input matching ∧
  sorted ≡ₚ matching ∧
  Sorted (λ a b, in_order input a b) sorted ∧
  mjoin ((λ p, page_of (searchTransactions (with_page input p) processed_store))
           <$> seqZ 1 2)
    = sorted.
Proof.
  intros input matching sorted.
  assert (H1 : 0 < SearchTransactionsInput.limit input) by (simpl; lia).
  assert (H2 : distinct_keys input matching)
    by (apply (bool_decide_unpack _); vm_compute; exact I).
  assert (H3 : sorted ≡ₚ matching) by (vm_compute; reflexivity).
  assert (H4 : Sorted (λ a b, in_order input a b) sorted)
    by (repeat constructor; vm_compute; exact I).
  split; [exact H1|]. split; [reflexivity|]. split; [reflexivity|].
  split; [exact H2|]. split; [exact H3|]. split; [exact H4|].
  exact (proj2 (searchTransactions_pages_join processed_store input 2 sorted
                  H1 eq_refl eq_refl ltac:(vm_compute; discriminate)
                  H2 H3 H4) ltac:(vm_compute; discriminate)).
Defined.

(** ** The case of the search term *)

Lemma to_lower_idempotent (c : ascii) : to_lower (to_lower c) = to_lower c.
Proof. by destruct c as [[] [] [] [] [] [] [] []]. Qed.

Lemma lower_idempotent (s : string) : lower (lower s) = lower s.
Proof.
  induction s as [|c s IH]; simpl; [reflexivity|].
  by rewrite to_lower_idempotent, IH.
Qed.

Lemma truthy_lower (s : string) : truthy (lower s) = truthy s.
Proof. by destruct s. Qed.

Lemma ilike_lower_term (s term : string) :
  ilike s ("%" +:+ lower term +:+ "%") = ilike s ("%" +:+ term +:+ "%").
Proof.
  unfold ilike.
  change (lower ("%" +:+ lower term +:+ "%"))
    with ("%" +:+ lower (lower term +:+ "%")).
  change (lower ("%" +:+ term +:+ "%")) with ("%" +:+ lower (term +:+ "%")).
  by rewrite !lower_append, lower_idempotent.
Qed.

Lemma and_app_bind (l1 l2 : list Condition) (t : Transaction.t) :
  and_ (l1 ++ l2) t = (b1 ← and_ l1 t; b2 ← and_ l2 t; Some (b1 && b2)).
Proof.
  induction l1 as [|c l1 IH]; simpl.
  - by destruct (and_ l2 t).
  - destruct (c t) as [b|]; simpl; [|reflexivity].
    rewrite IH. destruct (and_ l1 t) as [b1|]; simpl; [|reflexivity].
    destruct (and_ l2 t) as [b2|]; simpl; [|reflexivity].
    by rewrite andb_assoc.
Qed.

Lemma matches_lower_term (input : SearchTransactionsInput.t) (term : string)
    (t : Transaction.t) :
  matches (with_search_term input (Some (lower term))) t
    = matches (with_search_term input (Some term)) t.
Proof.
  unfold matches. f_equal. unfold search_conditions.
  cbn -[and_ or_ ilike String.append lower truthy].
  rewrite !(and_app_bind (if truthy _ then _ else _)).
  rewrite truthy_lower. destruct (truthy term); [|reflexivity].
  f_equal.
  cbn -[ilike String.append lower]. unfold ilike_text, ilike_nullable.
  rewrite !ilike_lower_term.
  destruct (Transaction.vendor_name t) as [vendor|]; [|reflexivity].
  by rewrite !ilike_lower_term.
Qed.

(** X10.  The case of the letters of the search term plays no part: the
    term in lower case gives the same run as the term itself, wildcards or
    not. *)
Theorem searchTransactions_ignores_case_of_term
    (s : DB) (input : SearchTransactionsInput.t) (term : string) :
  searchTransactions (with_search_term input (Some (lower term))) s
    = searchTransactions (with_search_term input (Some term)) s.
Proof.
  assert (Hwhere : ∀ l,
    apply_where (search_conditions (with_search_term input (Some (lower term)))) l
    = apply_where (search_conditions (with_search_term input (Some term))) l).
  { intros l. rewrite !apply_where_matches. f_equal.
    induction l as [|t l IH]; [reflexivity|].
    by rewrite !filter_cons, IH, matches_lower_term. }
  unfold searchTransactions. rewrite !rethrow. cbv zeta.
  unfold bind, execute_page, execute_count. rewrite !Hwhere.
  reflexivity.
Qed.

(** ** Wildcards only widen a search *)














(** ** Processing what was just uploaded *)

Lemma prefix_split (needle a b : string) (c : ascii) :
  occurs c needle = false →
  String.prefix needle (a +:+ String c b) = String.prefix needle a.
Proof.
  revert a. induction needle as [|n0 needle IH]; intros a Hc; [by destruct a|].
  simpl in Hc. apply orb_false_iff in Hc as [Hn0 Hc].
  destruct a as [|x a]; simpl.
  - destruct (ascii_dec n0 c) as [->|]; [|reflexivity].
    by rewrite Ascii.eqb_refl in Hn0.
  - destruct (ascii_dec n0 x); [by apply IH|reflexivity].
Qed.

Lemma includes_split (needle a b : string) (c : ascii) :
  occurs c needle = false →
  includes needle (a +:+ String c b) = includes needle a || includes needle b.
Proof.
  intros Hc. induction a as [|x a IH].
  - change (includes needle ("" +:+ String c b))
      with (String.prefix needle (String c b) || includes needle b).
    pose proof (prefix_split needle "" b c Hc) as Hp.
    change ("" +:+ String c b) with (String c b) in Hp. rewrite Hp.
    change (includes needle "") with (String.prefix needle "" || false).
    by rewrite orb_false_r.
  - change (includes needle (String x a +:+ String c b))
      with (String.prefix needle (String x a +:+ String c b)
            || includes needle (a +:+ String c b)).
    rewrite IH, (prefix_split _ _ _ _ Hc).
    change (includes needle (String x a))
      with (String.prefix needle (String x a) || includes needle a).
    by rewrite orb_assoc.
Qed.

Lemma prefix_occurs (needle haystack : string) (c : ascii) :
  String.prefix needle haystack = true →
  occurs c needle = true → occurs c haystack = true.
Proof.
  revert haystack. induction needle as [|n0 needle IH]; intros haystack;
    [discriminate 2|].
  destruct haystack as [|h0 haystack]; simpl; [discriminate|].
  destruct (ascii_dec n0 h0) as [->|]; [|discriminate].
  intros Hp [->|Hc]%orb_true_iff; [reflexivity|].
  rewrite (IH _ Hp Hc). apply orb_true_r.
Qed.

Lemma includes_occurs (needle haystack : string) (c : ascii) :
  includes needle haystack = true →
  occurs c needle = true → occurs c haystack = true.
Proof.
  intros Hincludes Hc. induction haystack as [|h0 haystack IH].
  - destruct needle; [discriminate Hc|discriminate Hincludes].
  - change (includes needle (String h0 haystack))
      with (String.prefix needle (String h0 haystack)
            || includes needle haystack) in Hincludes.
    apply orb_true_iff in Hincludes as [Hp|Hi].
    + exact (prefix_occurs _ _ _ Hp Hc).
    + simpl. rewrite (IH Hi). apply orb_true_r.
Qed.

Lemma occurs_append (c : ascii) (a b : string) :
  occurs c (a +:+ b) = occurs c a || occurs c b.
Proof.
  induction a as [|x a IH]; simpl; [reflexivity|].
  by rewrite IH, orb_assoc.
Qed.

Lemma pretty_N_go_chars (c : ascii) (x : N) (s : string) :
  occurs c (pretty_N_go x s) = true →
  occurs c s = true ∨ occurs c "0123456789" = true.
Proof.
  revert s. induction (N.lt_wf_0 x) as [x _ IH]; intros s.
  assert (x = 0 ∨ 0 < x)%N as [->|Hx] by lia.
  - rewrite pretty_N_go_0. by left.
  - rewrite pretty_N_go_step by done. intros Hc.
    apply IH in Hc as [Hc|Hc]; [|by right|by apply N.div_lt].
    simpl in Hc. apply orb_true_iff in Hc as [Hc|Hc]; [|by left].
    right. apply Ascii.eqb_eq in Hc as ->.
    unfold pretty_N_char. by repeat case_match.
Qed.

Lemma pretty_N_chars (c : ascii) (x : N) :
  occurs c (pretty x) = true → occurs c "0123456789" = true.
Proof.
  unfold pretty, pretty_N. case_decide.
  - simpl. rewrite orb_false_r. by intros ->%Ascii.eqb_eq.
  - intros [Hc|Hc]%pretty_N_go_chars; [discriminate Hc|exact Hc].
Qed.

(** The decimal text of an integer is made of digits and, possibly, of a
    minus sign. *)
Lemma show_chars (c : ascii) (n : Z) :
  occurs c (show n) = true → occurs c "-0123456789" = true.
Proof.
  unfold show, pretty, pretty_Z. destruct n as [|p|p].
  - simpl. rewrite !orb_false_r. intros ->. apply orb_true_r.
  - intros Hc%pretty_N_chars. simpl in *. rewrite Hc. apply orb_true_r.
  - change ("-" +:+ pretty p) with (String "-" (pretty (N.pos p))).
    simpl occurs at 1. intros [Hc|Hc%pretty_N_chars]%orb_true_iff.
    + simpl. by rewrite Hc.
    + simpl in *. rewrite Hc. apply orb_true_r.
Qed.

(** Whether the generated filename holds [needle] is a matter of the random
    suffix alone, for a needle with a character that is no digit and that
    neither [doc] nor [pdf] holds. *)
Lemma generated_filename_includes (needle : string) (c : ascii)
    (timestamp : Z) (randomSuffix : string) :
  occurs "_" needle = false →
  occurs "." needle = false →
  occurs c needle = true →
  occurs c "-0123456789" = false →
  includes needle "doc" = false →
  includes needle "pdf" = false →
  includes needle
    ("doc_" +:+ show timestamp +:+ "_" +:+ randomSuffix +:+ ".pdf")
    = includes needle randomSuffix.
Proof.
  intros Hunderscore Hdot Hc Hdigit Hdoc Hpdf.
  change ("doc_" +:+ show timestamp +:+ "_" +:+ randomSuffix +:+ ".pdf")
    with ("doc" +:+ String "_"
            (show timestamp +:+ String "_" (randomSuffix +:+ String "." "pdf"))).
  rewrite !includes_split by done. rewrite Hdoc, Hpdf, orb_false_r. simpl.
  destruct (includes needle (show timestamp)) eqn:Hshow; [|reflexivity].
  pose proof (show_chars c timestamp (includes_occurs _ _ _ Hshow Hc)) as H.
  by rewrite Hdigit in H.
Qed.

Lemma storable_upload_size (input : UploadDocumentInput.t) :
  storable_upload input = true →
  int4 (UploadDocumentInput.file_size input) = true.
Proof.
  unfold storable_upload. intros H.
  apply andb_true_iff in H as [H _]. by apply andb_true_iff in H as [H _].
Qed.

Lemma uploadDocument_run (s : DB) (input : UploadDocumentInput.t)
    (timestamp : Z) (randomSuffix : string) :
  sequences_ahead s →
  int4 (UploadDocumentInput.file_size input) = true →
  let id := documents_id_seq s in
  let row :=
    Document.mk id
      ("doc_" +:+ show timestamp +:+ "_" +:+ randomSuffix +:+ ".pdf")
      (UploadDocumentInput.original_name input)
      (UploadDocumentInput.file_size input)
      (UploadDocumentInput.mime_type input)
      (db_now s) pending None in
  let s' :=
    mkDB (<[id := row]> (documents s)) (transactions s)
      (id + 1) (transactions_id_seq s) (db_now s) in
  uploadDocument input timestamp randomSuffix s = mkRun (Returned row) s' [s'].
Proof.
  intros Hseq Hsize id row s'. unfold uploadDocument. rewrite rethrow. cbv zeta.
  pose proof (sequences_ahead_fresh_document s (documents_id_seq s) Hseq
                ltac:(reflexivity)) as Hfresh.
  unfold bind, insert_document. simpl NewDocument.file_size.
  rewrite Hsize, Hfresh. reflexivity.
Qed.

(** X12.  For an upload that the columns take, the file size within 32 bits,
    what the processing of the document just uploaded gives is decided by
    the random suffix of the generated filename, never by the names of the
    uploaded file: with ["empty"] in the suffix the answer is the empty
    list, otherwise with ["error"] in it the processing throws and the
    document is left 'failed', otherwise the two mock transactions are
    stored under the new document, which is left 'completed'. *)
Theorem upload_then_process_keyed_on_suffix
    (s : DB) (input : UploadDocumentInput.t)
    (timestamp : Z) (randomSuffix : string) :
  sequences_ahead s →
  storable_upload input = true →
  ∃ uploadedDocument r,
    upload_then_process input timestamp randomSuffix s
      = Some (uploadedDocument, r) ∧
    let id := Document.id uploadedDocument in
    let n := transactions_id_seq s in
    if includes "empty" randomSuffix then
      outcome r = Returned [] ∧
      transactions (final r) = transactions s ∧
      stored_status id (final r) = Some (completed, None)
    else if includes "error" randomSuffix then
      outcome r = Threw (ErrorObj "PDF parsing failed - corrupted file") ∧
      transactions (final r) = transactions s ∧
      stored_status id (final r)
        = Some (failed, Some "PDF parsing failed - corrupted file")
    else
      outcome r = Returned [mock_row_1 n id (db_now s);
                            mock_row_2 (n + 1) id (db_now s)] ∧
      transactions (final r) =
        <[n + 1 := mock_row_2 (n + 1) id (db_now s)]>
          (<[n := mock_row_1 n id (db_now s)]> (transactions s)) ∧
      stored_status id (final r) = Some (completed, None).
Proof.
  intros Hseq Hinput. unfold upload_then_process.
  pose proof (storable_upload_size _ Hinput) as Hsize.
  assert (Hseq' : sequences_ahead
                    (final (uploadDocument input timestamp randomSuffix s))).
  { exact (proj1 (uploadDocument_preserves _ ahead_insert_document
                    input timestamp randomSuffix s Hseq)). }
  rewrite (uploadDocument_run s input timestamp randomSuffix Hseq Hsize)
    in Hseq' |- *.
  cbv zeta in Hseq' |- *. simpl outcome. cbv iota. simpl final in Hseq' |- *.
  set (id := documents_id_seq s) in *.
  set (row := Document.mk id _ _ _ _ _ _ _) in *.
  set (s' := mkDB _ _ _ _ _) in *.
  assert (Hdoc : documents s' !! id = Some row) by apply lookup_insert_eq.
  eexists row, _. split; [reflexivity|].
  change (Document.id row) with id.
  rewrite (processDocument_run s' id row Hseq' Hdoc). cbv zeta.
  change (Document.filename row)
    with ("doc_" +:+ show timestamp +:+ "_" +:+ randomSuffix +:+ ".pdf").
  rewrite (generated_filename_includes "empty" "e") by reflexivity.
  rewrite (generated_filename_includes "error" "e") by reflexivity.
  destruct (includes "empty" randomSuffix).
  { simpl. split; [reflexivity|]. split; [reflexivity|].
    unfold stored_status. simpl. by rewrite !lookup_alter_eq, lookup_insert_eq. }
  destruct (includes "error" randomSuffix).
  { simpl. split; [reflexivity|]. split; [reflexivity|].
    unfold stored_status. simpl. by rewrite !lookup_alter_eq, lookup_insert_eq. }
  simpl. split; [reflexivity|]. split; [reflexivity|].
  unfold stored_status. simpl. by rewrite !lookup_alter_eq, lookup_insert_eq.
Qed.

Lemma upload_then_process_keyed_on_suffix_witness :
  sequences_ahead sample_store ∧
  ∃ uploadedDocument r,
    upload_then_process
      (UploadDocumentInput.mk "error-document.pdf" "error-document.pdf"
         1024 "application/pdf")
      1700000000000 "k3x9qz" sample_store = Some (uploadedDocument, r) ∧
    outcome r = Returned [mock_row_1 1 5 1700000000500;
                          mock_row_2 2 5 1700000000500].
Proof.
  assert (H1 : sequences_ahead sample_store)
    by (apply (bool_decide_unpack _); vm_compute; exact I).
  split; [exact H1|].
  destruct (upload_then_process_keyed_on_suffix sample_store
              (UploadDocumentInput.mk "error-document.pdf" "error-document.pdf"
                 1024 "application/pdf")
              1700000000000 "k3x9qz" H1 eq_refl)
    as (uploadedDocument & r & Hrun & Hr).
  exists uploadedDocument, r. split; [exact Hrun|].
  vm_compute in Hrun. injection Hrun as <- <-. by vm_compute.
Defined.

(** ** The generated filename *)

Lemma append_split (a b x y : string) (c : ascii) :
  occurs c a = false → occurs c b = false →
  a +:+ String c x = b +:+ String c y → a = b ∧ x = y.
Proof.
  revert b. induction a as [|a0 a IH]; intros [|b0 b]; simpl.
  - intros _ _ [= ->]. done.
  - intros _ [Hc _]%orb_false_iff [= <- _]. by rewrite Ascii.eqb_refl in Hc.
  - intros [Hc _]%orb_false_iff _ [= -> _]. by rewrite Ascii.eqb_refl in Hc.
  - intros [_ Ha]%orb_false_iff [_ Hb]%orb_false_iff [= -> Heq].
    destruct (IH b Ha Hb Heq) as [-> ->]. done.
Qed.

Lemma length_append (a b : string) :
  String.length (a +:+ b) = (String.length a + String.length b)%nat.
Proof. induction a as [|a0 a IH]; simpl; [reflexivity|]. by rewrite IH. Qed.

Lemma append_inj_r (a b z : string) : a +:+ z = b +:+ z → a = b.
Proof.
  intros Heq.
  assert (Hlen : String.length a = String.length b).
  { apply (f_equal String.length) in Heq. rewrite !length_append in Heq. lia. }
  revert b Heq Hlen. induction a as [|a0 a IH]; intros [|b0 b]; simpl;
    try discriminate; [done|].
  intros [= -> Heq] [= Hlen]. by rewrite (IH b Heq Hlen).
Qed.

Lemma show_no_underscore (n : Z) : occurs "_" (show n) = false.
Proof.
  destruct (occurs "_" (show n)) eqn:Hc; [|reflexivity].
  apply show_chars in Hc. discriminate Hc.
Qed.

Lemma generated_filename_inj (t1 t2 : Z) (x1 x2 : string) :
  "doc_" +:+ show t1 +:+ "_" +:+ x1 +:+ ".pdf"
    = "doc_" +:+ show t2 +:+ "_" +:+ x2 +:+ ".pdf" →
  t1 = t2 ∧ x1 = x2.
Proof.
  intros Heq. apply (inj (String.app "doc_")) in Heq.
  apply append_split in Heq as [Ht Hx]; [|apply show_no_underscore..].
  split.
  - by apply (inj pretty).
  - by apply append_inj_r in Hx.
Qed.

(** X13.  Two uploads in a row, each of an input that the columns take,
    the file size within 32 bits, both succeed and both rows are kept,
    under consecutive ids.  The generated filenames are the same exactly when the clock
    readings and the random suffixes are: the table sets no uniqueness on
    the filename, and then the store holds two documents of one
    filename. *)
Theorem uploadDocument_twice
    (s : DB) (input1 input2 : UploadDocumentInput.t)
    (timestamp1 timestamp2 : Z) (randomSuffix1 randomSuffix2 : string) :
  sequences_ahead s →
  storable_upload input1 = true →
  storable_upload input2 = true →
  let r1 := uploadDocument input1 timestamp1 randomSuffix1 s in
  let r2 := uploadDocument input2 timestamp2 randomSuffix2 (final r1) in
  ∃ d1 d2,
    outcome r1 = Returned d1 ∧
    outcome r2 = Returned d2 ∧
    Document.id d2 = Document.id d1 + 1 ∧
    documents (final r2)
      = <[Document.id d2 := d2]> (<[Document.id d1 := d1]> (documents s)) ∧
    documents (final r2) !! Document.id d1 = Some d1 ∧
    (Document.filename d1 = Document.filename d2 ↔
     timestamp1 = timestamp2 ∧ randomSuffix1 = randomSuffix2).
Proof.
  intros Hseq Hinput1 Hinput2 r1 r2.
  pose proof (storable_upload_size _ Hinput1) as Hsize1.
  pose proof (storable_upload_size _ Hinput2) as Hsize2.
  assert (Hseq1 : sequences_ahead (final r1)).
  { exact (proj1 (uploadDocument_preserves _ ahead_insert_document
                    input1 timestamp1 randomSuffix1 s Hseq)). }
  assert (Hr2 : r2 = uploadDocument input2 timestamp2 randomSuffix2 (final r1))
    by reflexivity.
  rewrite (uploadDocument_run _ input2 timestamp2 randomSuffix2 Hseq1 Hsize2)
    in Hr2.
  assert (Hr1 : r1 = uploadDocument input1 timestamp1 randomSuffix1 s)
    by reflexivity.
  rewrite (uploadDocument_run _ input1 timestamp1 randomSuffix1 Hseq Hsize1)
    in Hr1.
  cbv zeta in Hr1, Hr2. clearbody r2. subst r2. clearbody r1. subst r1.
  eexists _, _. split; [reflexivity|]. split; [reflexivity|]. simpl.
  split; [reflexivity|]. split; [reflexivity|]. split.
  - rewrite lookup_insert_ne by lia. apply lookup_insert_eq.
  - split; [apply generated_filename_inj|]. by intros [-> ->].
Qed.

Lemma uploadDocument_twice_witness :
  let input :=
    UploadDocumentInput.mk "a.pdf" "a.pdf" 1024 "application/pdf" in
  let r1 := uploadDocument input 1700000000000 "k3x9qz" sample_store in
  let r2 := uploadDocument input 1700000000000 "k3x9qz" (final r1) in
  sequences_ahead sample_store ∧
  ∃ d1 d2,
    outcome r1 = Returned d1 ∧ outcome r2 = Returned d2 ∧
    Document.id d1 = 5 ∧ Document.id d2 = 6 ∧
    Document.filename d1 = Document.filename d2.
Proof.
  intros input r1 r2.
  assert (H1 : sequences_ahead sample_store)
    by (apply (bool_decide_unpack _); vm_compute; exact I).
  split; [exact H1|].
  destruct (uploadDocument_twice sample_store input input
              1700000000000 1700000000000 "k3x9qz" "k3x9qz" H1
              eq_refl eq_refl)
    as (d1 & d2 & Hd1 & Hd2 & Hid & _ & _ & Hname).
  exists d1, d2. split; [exact Hd1|]. split; [exact Hd2|].
  assert (Hfive : Document.id d1 = 5).
  { vm_compute in Hd1. by injection Hd1 as <-. }
  split; [exact Hfive|]. split; [lia|]. by apply Hname.
Defined.

(** ** The routes and their schemas *)

(** X14.  The check of the client and the schema of the upload route agree
    but for the empty file.  The client refuses a file that is no PDF or
    that is larger than 10 MB -- a file of exactly 10 MB passes; a file that
    the client lets through reaches the handler unless it is empty, in
    which case the route rejects it for its [file_size] and nothing is
    stored. *)
Theorem upload_checks
    (file : File.t) (timestamp : Z) (randomSuffix : string) (s : DB) :
  match handleFileUpload_error file with
  | Some message =>
      (File.type file ≠ "application/pdf" ∧
       message = "Please upload a PDF file only.") ∨
      (File.type file = "application/pdf" ∧
       10485760 < File.size file ∧
       message = "File size must be less than 10MB.")
  | None =>
      File.type file = "application/pdf" ∧
      File.size file ≤ 10485760 ∧
      route_uploadDocument timestamp randomSuffix (uploadData file) s =
        if 0 <? File.size file then
          handled (uploadDocument (uploadData file) timestamp randomSuffix s)
        else bad_request [too_small "file_size"]
  end.
Proof.
  unfold handleFileUpload_error, route_uploadDocument, procedure,
    uploadDocumentInputSchema.
  change (UploadDocumentInput.file_size (uploadData file)) with (File.size file).
  change (UploadDocumentInput.mime_type (uploadData file)) with (File.type file).
  destruct (String.eqb_spec (File.type file) "application/pdf") as [Htype|Htype];
    simpl negb; cbv iota; [|by left].
  change (10 * 1024 * 1024) with 10485760.
  destruct (Z.ltb_spec 10485760 (File.size file)) as [Hsize|Hsize]; [by right|].
  split; [exact Htype|]. split; [exact Hsize|].
  by destruct (0 <? File.size file).
Qed.


(** ** The page buttons of the table *)

Lemma search_conditions_with_page (input : SearchTransactionsInput.t) (p : Z) :
  search_conditions (with_page input p) = search_conditions input.
Proof. reflexivity. Qed.

Lemma searchTransactions_page_length
    (s : DB) (input : SearchTransactionsInput.t) :
  0 < SearchTransactionsInput.page input →
  0 < SearchTransactionsInput.limit input →
  let page := SearchTransactionsInput.page input in
  let limit := SearchTransactionsInput.limit input in
  let matching := filter (λ t, matches input t) (rows (transactions s)) in
  Z.of_nat (length (page_of (searchTransactions input s)))
    = Z.min limit (Z.max 0 (Z.of_nat (length matching) - (page - 1) * limit)).
Proof.
  intros Hpage Hlimit page limit matching.
  rewrite (searchTransactions_run _ _ Hpage Hlimit). cbv zeta.
  unfold page_of. simpl. fold page. fold limit. fold matching.
  rewrite length_take, length_drop, search_order_Permutation. nia.
Qed.

Lemma elem_of_page_buttons (currentPage totalPages p : Z) :
  Some p ∈ page_buttons currentPage totalPages ↔
  1 < totalPages ∧
  ∃ i, 0 ≤ i < Z.min 5 totalPages ∧
       p = (if currentPage <=? 3 then i + 1 else currentPage - 2 + i) ∧
       p ≤ totalPages.
Proof.
  unfold page_buttons.
  destruct (Z.ltb_spec 1 totalPages) as [Hpages|Hpages]; last first.
  { split; [by intros ?%elem_of_nil|]. intros [? _]. lia. }
  rewrite list_elem_of_fmap.
  split; [intros H; split; [exact Hpages|revert H]|intros [_ H]; revert H].
  - intros (i & Hp & Hi). apply elem_of_seqZ in Hi. exists i.
    cbv zeta in Hp.
    destruct (Z.ltb_spec totalPages
                (if currentPage <=? 3 then i + 1 else currentPage - 2 + i))
      as [Hlt|Hle]; [discriminate Hp|].
    injection Hp as ->. split; [lia|]. split; [reflexivity|exact Hle].
  - intros (i & Hi & -> & Hle). exists i. split.
    + cbv zeta. apply Z.ltb_ge in Hle. by rewrite Hle.
    + apply elem_of_seqZ. lia.
Qed.

(** X16.  For a search within the limits of the engine, the page buttons
    under the table agree with the server for the page size 20 that the
    client uses: the number of pages that the client computes from
    [total_count] is [total_pages]; there are at most five
    buttons, and none unless there is more than one page; every numbered
    button leads to a page with rows in it; and, when there is more than
    one page, the page shown has its button whenever it holds a row. *)
Theorem page_buttons_lead_to_rows
    (s : DB) (input : SearchTransactionsInput.t) :
  0 < SearchTransactionsInput.page input →
  SearchTransactionsInput.limit input = 20 →
  filters_in_range input = true →
  SearchTransactionsInput.page input * 20 ≤ max_safe_integer →
  ∃ result,
    outcome (searchTransactions input s) = Returned result ∧
    let currentPage := PaginatedTransactions.page result in
    let totalPages := totalPages_of (PaginatedTransactions.total_count result) in
    totalPages = PaginatedTransactions.total_pages result ∧
    (length (page_buttons currentPage totalPages) ≤ 5)%nat ∧
    (totalPages ≤ 1 → page_buttons currentPage totalPages = []) ∧
    (∀ p, Some p ∈ page_buttons currentPage totalPages →
          1 ≤ p ≤ totalPages ∧
          page_of (searchTransactions (with_page input p) s) ≠ []) ∧
    (1 < totalPages →
     PaginatedTransactions.transactions result ≠ [] →
     Some currentPage ∈ page_buttons currentPage totalPages).
Proof.
  intros Hpage Hlimit _ _.
  assert (Hlimit' : 0 < SearchTransactionsInput.limit input) by lia.
  pose proof (searchTransactions_page_length s input Hpage Hlimit') as Hlength.
  cbv zeta in Hlength. unfold page_of in Hlength.
  rewrite (searchTransactions_run _ _ Hpage Hlimit') in Hlength |- *.
  cbv zeta in Hlength |- *. simpl in Hlength.
  eexists. split; [reflexivity|]. simpl.
  set (matching := filter (λ t, matches input t) (rows (transactions s))) in *.
  set (page := SearchTransactionsInput.page input) in *.
  unfold totalPages_of. rewrite Hlimit in Hlength |- *.
  pose proof (ceil_div_spec (Z.of_nat (length matching)) 20 ltac:(lia)) as Hceil.
  set (totalPages := ceil_div (Z.of_nat (length matching)) 20) in *.
  split; [reflexivity|]. split; [|split; [|split]].
  - unfold page_buttons. destruct (1 <? totalPages); [|simpl; lia].
    rewrite length_fmap, length_seqZ. lia.
  - intros Hpages. unfold page_buttons.
    by destruct (Z.ltb_spec 1 totalPages); [lia|].
  - intros p (_ & i & Hi & -> & Hle)%elem_of_page_buttons.
    assert (Hp : 1 ≤ (if page <=? 3 then i + 1 else page - 2 + i)).
    { destruct (Z.leb_spec page 3); lia. }
    split; [lia|].
    set (p := if page <=? 3 then i + 1 else page - 2 + i) in *.
    pose proof (searchTransactions_page_length s (with_page input p)) as Hp_length.
    cbv zeta in Hp_length.
    change (SearchTransactionsInput.page (with_page input p)) with p in Hp_length.
    change (SearchTransactionsInput.limit (with_page input p))
      with (SearchTransactionsInput.limit input) in Hp_length.
    change (filter (λ t, matches (with_page input p) t) (rows (transactions s)))
      with matching in Hp_length.
    rewrite Hlimit in Hp_length.
    specialize (Hp_length ltac:(lia) ltac:(lia)).
    intros Hempty. rewrite Hempty in Hp_length. simpl in Hp_length. nia.
  - intros Hpages Hrows. apply elem_of_page_buttons. split; [exact Hpages|].
    assert (Hin : page ≤ totalPages).
    { destruct (decide (page ≤ totalPages)) as [|Hbeyond]; [done|].
      exfalso. apply Hrows. apply length_zero_iff_nil. nia. }
    destruct (Z.leb_spec page 3).
    + exists (page - 1). lia.
    + exists 2. lia.
Qed.

Lemma page_buttons_lead_to_rows_witness :
  let input :=
    SearchTransactionsInput.mk None None None None None None None None
      by_transaction_date sort_desc 2 20 in
  0 < SearchTransactionsInput.page input ∧
  SearchTransactionsInput.limit input = 20 ∧
  ∃ result,
    outcome (searchTransactions input ledger_store) = Returned result ∧
    length (PaginatedTransactions.transactions result) = 5%nat ∧
    page_buttons (PaginatedTransactions.page result)
      (totalPages_of (PaginatedTransactions.total_count result))
      = [Some 1; Some 2].
Proof.
  intros input.
  assert (H1 : 0 < SearchTransactionsInput.page input) by (simpl; lia).
  assert (H2 : SearchTransactionsInput.limit input = 20) by reflexivity.
  split; [exact H1|]. split; [exact H2|].
  destruct (page_buttons_lead_to_rows ledger_store input H1 H2 eq_refl
              ltac:(vm_compute; discriminate))
    as (result & Hrun & _).
  exists result. split; [exact Hrun|].
  vm_compute in Hrun. injection Hrun as <-. by vm_compute.
Defined.

(** ** Uploads on the stores that the routes can reach *)

Lemma sequences_ahead_reachable (ops : list Operation) (s : DB) :
  sequences_ahead s → sequences_ahead (foldl (λ s op, after op s) s ops).
Proof.
  revert s. induction ops as [|op ops IH]; intros s Hs; simpl; [exact Hs|].
  by apply IH, sequences_ahead_after.
Qed.

Lemma getDocuments_run (s : DB) :
  getDocuments s
    = mkRun (Returned (orderBy (desc Document.upload_date) (rows (documents s))))
        s [].
Proof. unfold getDocuments. by rewrite rethrow. Qed.

(** X17.  On every store that a sequence of operations leaves, starting
    from the empty tables with their sequences at 1, an upload of an input
    that the columns take, the file size within 32 bits, succeeds: the id
    that the sequence gives is never taken.  The new document is
    'pending', and [getDocuments] then lists it with the documents that it listed
    before. *)
Theorem uploadDocument_on_reachable_store
    (ops : list Operation) (now : Z)
    (input : UploadDocumentInput.t) (timestamp : Z) (randomSuffix : string) :
  storable_upload input = true →
  let s := foldl (λ s op, after op s) (mkDB ∅ ∅ 1 1 now) ops in
  let r := uploadDocument input timestamp randomSuffix s in
  ∃ d before after_,
    outcome r = Returned d ∧
    documents s !! Document.id d = None ∧
    Document.processing_status d = pending ∧
    outcome (getDocuments s) = Returned before ∧
    outcome (getDocuments (final r)) = Returned after_ ∧
    after_ ≡ₚ d :: before.
Proof.
  intros Hinput s r.
  pose proof (storable_upload_size _ Hinput) as Hsize.
  assert (Hseq : sequences_ahead s).
  { apply sequences_ahead_reachable. split; apply map_Forall_empty. }
  assert (Hfresh : documents s !! documents_id_seq s = None)
    by (apply sequences_ahead_fresh_document; [exact Hseq|lia]).
  subst r. rewrite (uploadDocument_run _ _ _ _ Hseq Hsize). cbv zeta.
  rewrite !getDocuments_run.
  eexists _, _, _. split; [reflexivity|]. simpl.
  split; [exact Hfresh|]. split; [reflexivity|].
  split; [reflexivity|]. split; [reflexivity|].
  by rewrite !orderBy_Permutation, (rows_insert _ _ _ Hfresh).
Qed.

Lemma uploadDocument_on_reachable_store_witness :
  let input :=
    UploadDocumentInput.mk "statement.pdf" "statement.pdf" 2048000
      "application/pdf" in
  let ops :=
    [op_uploadDocument input 1700000000000 "a1b2c3"; op_processDocument 1] in
  let s := foldl (λ s op, after op s) (mkDB ∅ ∅ 1 1 1700000000500) ops in
  storable_upload input = true ∧
  ∃ d, outcome (uploadDocument input 1700000000123 "k3x9qa" s) = Returned d ∧
       Document.id d = 2.
Proof.
  intros input ops s.
  assert (H : storable_upload input = true) by reflexivity.
  split; [exact H|].
  destruct (uploadDocument_on_reachable_store ops 1700000000500 input
              1700000000123 "k3x9qa" H) as (d & _ & _ & Hd & _).
  exists d. split; [exact Hd|].
  vm_compute in Hd. by injection Hd as <-.
Defined.
